(** * Checkers rules engine: [GameService] of [src/app/services/game.service.ts]

    A shallow embedding of the Angular service that owns the board, the turn,
    the selection and the game-over flag, followed by the properties of its
    three public operations [initializeBoard], [selectPiece] and [movePiece].

    Conventions of the embedding:
    - a TypeScript [number] used as a board coordinate is an integer [Z];
    - a cell is the very string the code stores (['red'], ['black'],
      ['red-king'], ['black-king'] or ['']), and ownership and rank are read
      off it with [startsWith] and [includes] exactly as the code does;
    - a JavaScript value that may be [undefined] is an [option];
    - a method is a computation in the monad [M]: it reads and writes the
      fields of the service and either returns or throws a [TypeError];
    - [console.log] has no effect on the service and is left out. *)

From Stdlib Require Import ZArith String List Bool Lia.
From stdpp Require Import base tactics option list.
Import ListNotations.

Local Open Scope string_scope.
Local Open Scope Z_scope.

(** ** JavaScript primitives used by the service *)

Module JS.

(** [s.startsWith(p)] *)
Definition startsWith (s p : string) : bool := String.prefix p s.

(** [s.includes(t)]: [t] occurs somewhere in [s]. *)
Fixpoint includes (s t : string) : bool :=
  String.prefix t s ||
  match s with
  | EmptyString => false
  | String _ s' => includes s' t
  end.

(** [a === b] on strings. *)
Definition strict_eq (a b : string) : bool := String.eqb a b.

(** [v !== lit] where [v] may be [undefined] and [lit] is a string. *)
Definition strict_neq (v : option string) (lit : string) : bool :=
  match v with
  | Some a => negb (String.eqb a lit)
  | None => true
  end.

(** [arr[i]] for an integer [i]: [undefined] outside [0 .. length-1]. *)
Definition index {A : Type} (arr : list A) (i : Z) : option A :=
  if 0 <=? i then arr !! Z.to_nat i else None.

(** [Array.from({ length: n }, (_, i) => f i)] *)
Definition array_from {A : Type} (n : nat) (f : Z -> A) : list A :=
  List.map (fun i => f (Z.of_nat i)) (seq 0 n).

End JS.

(** ** The service object *)

Record GameService : Type := mkGameService {
  board : list (list string);
  currentPlayer : string;
  selectedPiece : option (Z * Z);
  gameOver : bool
}.

Definition set_board (b : list (list string)) (s : GameService) : GameService :=
  mkGameService b (currentPlayer s) (selectedPiece s) (gameOver s).
Definition set_currentPlayer (p : string) (s : GameService) : GameService :=
  mkGameService (board s) p (selectedPiece s) (gameOver s).
Definition set_selectedPiece (sel : option (Z * Z)) (s : GameService) : GameService :=
  mkGameService (board s) (currentPlayer s) sel (gameOver s).
Definition set_gameOver (g : bool) (s : GameService) : GameService :=
  mkGameService (board s) (currentPlayer s) (selectedPiece s) g.

(** ** Methods as computations over the service

    A call ends in one of three ways.  [Returned a]: the method returned [a].
    [TypeError]: the method threw, which is what JavaScript does when a
    property of [undefined] or [null] is read.  [OutOfModel]: the call would
    do something this embedding has no value for (write a column that the row
    does not have, which grows a JavaScript array; store [undefined] in a
    cell; index with a fraction).  [never_OutOfModel] below shows that no
    method ever ends that way, from any state and for any arguments. *)

Inductive outcome (A : Type) : Type :=
| Returned (a : A)
| TypeError
| OutOfModel.
Arguments Returned {A} a.
Arguments TypeError {A}.
Arguments OutOfModel {A}.

Definition M (A : Type) : Type := GameService -> outcome A * GameService.

Definition ret {A} (a : A) : M A := fun s => (Returned a, s).

Definition bind {A B} (m : M A) (k : A -> M B) : M B :=
  fun s =>
    match m s with
    | (Returned a, s') => k a s'
    | (TypeError, s') => (TypeError, s')
    | (OutOfModel, s') => (OutOfModel, s')
    end.

Definition throw {A} : M A := fun s => (TypeError, s).
Definition unmodelled {A} : M A := fun s => (OutOfModel, s).
Definition gets {A} (f : GameService -> A) : M A := fun s => (Returned (f s), s).
Definition modify (f : GameService -> GameService) : M unit :=
  fun s => (Returned tt, f s).

Declare Scope js_scope.
Delimit Scope js_scope with js.
Notation "x <- m ;; k" := (bind m (fun x => k))
  (at level 100, m at next level, k at level 200, right associativity) : js_scope.
Notation "m ;;; k" := (bind m (fun _ => k))
  (at level 100, k at level 200, right associativity) : js_scope.
Local Open Scope js_scope.

(** The result and the final state of a call. *)
Definition result {A} (r : outcome A * GameService) : outcome A := fst r.
Definition after {A} (r : outcome A * GameService) : GameService := snd r.

(** [const { row, col } = this.selectedPiece!]: destructuring [null] throws. *)
Definition destructure (sel : option (Z * Z)) : M (Z * Z) :=
  match sel with
  | Some rc => ret rc
  | None => throw
  end.

(** [this.board[row][col]] as an r-value: reading a column of a missing row
    throws, a missing column of an existing row is [undefined]. *)
Definition board_get (row col : Z) : M (option string) :=
  fun s =>
    match JS.index (board s) row with
    | None => (TypeError, s)
    | Some r => (Returned (JS.index r col), s)
    end.

(** A method call on a value that may be [undefined]. *)
Definition defined (v : option string) : M string :=
  match v with
  | Some a => ret a
  | None => throw
  end.

(** [this.board[row][col] = v]. *)
Definition board_set (row col : Z) (v : option string) : M unit :=
  fun s =>
    match JS.index (board s) row with
    | None => (TypeError, s)
    | Some r =>
        match JS.index r col, v with
        | Some _, Some a =>
            (Returned tt,
             set_board (<[Z.to_nat row := <[Z.to_nat col := a]> r]> (board s)) s)
        | _, _ => (OutOfModel, s)
        end
    end.

(** [n / 2] used as an array index. *)
Definition half (n : Z) : M Z :=
  if Z.even n then ret (n / 2) else unmodelled.

(** *** [initializeBoard] *)

Definition initializeBoard : M unit :=
  modify (set_board
    (JS.array_from 8 (fun row =>
       JS.array_from 8 (fun col =>
         if (row <? 3) && (Z.rem (row + col) 2 =? 1) then "black"
         else if (row >? 4) && (Z.rem (row + col) 2 =? 1) then "red"
         else "")))) ;;;
  modify (set_currentPlayer "red") ;;;
  modify (set_selectedPiece None) ;;;
  modify (set_gameOver false).

(** The field initialisers of the class followed by the constructor body. *)
Definition new_GameService : GameService :=
  after (initializeBoard (mkGameService [] "red" None false)).

(** *** [selectPiece] *)

Definition selectPiece (row col : Z) : M bool :=
  cell <- board_get row col ;;
  piece <- defined cell ;;
  cur <- gets currentPlayer ;;
  if JS.startsWith piece cur then
    modify (set_selectedPiece (Some (row, col))) ;;;
    ret true
  else ret false.

(** *** [switchPlayer] *)

Definition switchPlayer : M unit :=
  cur <- gets currentPlayer ;;
  modify (set_currentPlayer (if JS.strict_eq cur "red" then "black" else "red")).

(** *** [countPieces] *)

Definition count_color (b : list (list string)) (color : string) : nat :=
  length (List.filter (fun piece => JS.startsWith piece color) (concat b)).

Definition countPieces (color : string) : M nat :=
  gets (fun s => count_color (board s) color).

(** *** [checkGameOver] *)

Definition checkGameOver : M unit :=
  redPieces <- countPieces "red" ;;
  blackPieces <- countPieces "black" ;;
  if Nat.eqb redPieces 0 then modify (set_gameOver true)
  else if Nat.eqb blackPieces 0 then modify (set_gameOver true)
  else ret tt.

(** *** [isValidMove] *)

Definition forwardMove (cur : string) (dy : Z) : bool :=
  (JS.strict_eq cur "red" && (dy =? -1)) ||
  (JS.strict_eq cur "black" && (dy =? 1)).

Definition isValidMove (targetRow targetCol : Z) : M bool :=
  sel <- gets selectedPiece ;;
  rc <- destructure sel ;;
  let '(row, col) := rc in
  piece <- board_get row col ;;
  let dx := targetCol - col in
  let dy := targetRow - row in
  target <- board_get targetRow targetCol ;;
  if JS.strict_neq target "" then ret false
  else
    p <- defined piece ;;
    let isKing := JS.includes p "king" in
    cur <- gets currentPlayer ;;
    if (Z.abs dx =? 1) && (Z.abs dy =? 1) then ret (isKing || forwardMove cur dy)
    else if (Z.abs dx =? 2) && (Z.abs dy =? 2) then
      jumpedRow <- half (row + targetRow) ;;
      jumpedCol <- half (col + targetCol) ;;
      jumped <- board_get jumpedRow jumpedCol ;;
      if JS.strict_neq jumped "" then
        jumped' <- board_get jumpedRow jumpedCol ;;
        j <- defined jumped' ;;
        ret (negb (JS.startsWith j cur))
      else ret false
    else ret false.

(** *** [movePiece] *)

Definition movePiece (targetRow targetCol : Z) : M bool :=
  valid <- isValidMove targetRow targetCol ;;
  if negb valid then
    modify (set_selectedPiece None) ;;;
    ret false
  else
    sel <- gets selectedPiece ;;
    rc <- destructure sel ;;
    let '(row, col) := rc in
    piece <- board_get row col ;;
    board_set targetRow targetCol piece ;;;
    board_set row col (Some "") ;;;
    (if Z.abs (targetRow - row) =? 2 then
       jumpedRow <- half (row + targetRow) ;;
       jumpedCol <- half (col + targetCol) ;;
       board_set jumpedRow jumpedCol (Some "")
     else ret tt) ;;;
    cur <- gets currentPlayer ;;
    (if (JS.strict_eq cur "red" && (targetRow =? 0)) ||
        (JS.strict_eq cur "black" && (targetRow =? 7))
     then board_set targetRow targetCol (Some (String.append cur "-king"))
     else ret tt) ;;;
    modify (set_selectedPiece None) ;;;
    switchPlayer ;;;
    checkGameOver ;;;
    ret true.

(** ** Reachable states

    The states a client can bring the service into: construction followed by
    any number of calls of the three public methods, with any integer
    arguments, whether a call returns or throws. *)

Inductive reachable : GameService -> Prop :=
| reach_new : reachable new_GameService
| reach_initializeBoard s :
    reachable s -> reachable (after (initializeBoard s))
| reach_selectPiece s row col :
    reachable s -> reachable (after (selectPiece row col s))
| reach_movePiece s targetRow targetCol :
    reachable s -> reachable (after (movePiece targetRow targetCol s)).

(** ** Vocabulary of the properties *)

(** The content of cell [(r, c)], [None] when the board has no such cell. *)
Definition cell (b : list (list string)) (r c : Z) : option string :=
  match JS.index b r with
  | Some rw => JS.index rw c
  | None => None
  end.

(** The board with cell [(r, c)] overwritten, when it has such a cell. *)
Definition put (b : list (list string)) (r c : Z) (v : string)
  : list (list string) :=
  match JS.index b r with
  | Some rw =>
      match JS.index rw c with
      | Some _ => <[Z.to_nat r := <[Z.to_nat c := v]> rw]> b
      | None => b
      end
  | None => b
  end.

(** The test the code applies to decide that [color] owns a cell. *)
Definition owned_by (color piece : string) : bool := JS.startsWith piece color.

(** The test the code applies to decide that a piece is a king. *)
Definition is_king (piece : string) : bool := JS.includes piece "king".

(** The other player, as [switchPlayer] computes it. *)
Definition opponent (cur : string) : string :=
  if JS.strict_eq cur "red" then "black" else "red".

(** The five strings a cell of a running game can hold. *)
Definition is_tag (v : string) : Prop :=
  v = "" \/ v = "red" \/ v = "black" \/ v = "red-king" \/ v = "black-king".

(** Dark squares are those whose coordinates have an odd sum. *)
Definition dark (r c : Z) : bool := Z.odd (r + c).

(** The row on which [cur] is crowned. *)
Definition crowning (cur : string) (targetRow : Z) : bool :=
  (JS.strict_eq cur "red" && (targetRow =? 0)) ||
  (JS.strict_eq cur "black" && (targetRow =? 7)).

(** The board a successful move of piece [p] from [(row, col)] to
    [(tr, tc)] by [cur] leaves behind: the four writes of [movePiece] in
    order.  [movePiece_run] proves that this is what the method computes. *)
Definition moved_board (b : list (list string)) (cur : string)
    (row col tr tc : Z) (p : string) : list (list string) :=
  let b1 := put (put b tr tc p) row col "" in
  let b2 := if Z.abs (tr - row) =? 2
            then put b1 ((row + tr) / 2) ((col + tc) / 2) "" else b1 in
  if crowning cur tr then put b2 tr tc (String.append cur "-king") else b2.

(** The condition under which [checkGameOver] raises the flag. *)
Definition no_pieces (b : list (list string)) : bool :=
  Nat.eqb (count_color b "red") 0 || Nat.eqb (count_color b "black") 0.

(** The service after a successful move ([movePiece_run]). *)
Definition moved (s : GameService) (row col tr tc : Z) (p : string)
  : GameService :=
  let b := moved_board (board s) (currentPlayer s) row col tr tc p in
  mkGameService b (opponent (currentPlayer s)) None (gameOver s || no_pieces b).

(** What [isValidMove] answers when the selection and the target are cells of
    the board holding [p] and [t] ([isValidMove_run]). *)
Definition validity (b : list (list string)) (cur : string)
    (row col tr tc : Z) (p t : string) : outcome bool :=
  if negb (String.eqb t "") then Returned false
  else if (Z.abs (tc - col) =? 1) && (Z.abs (tr - row) =? 1)
  then Returned (is_king p || forwardMove cur (tr - row))
  else if (Z.abs (tc - col) =? 2) && (Z.abs (tr - row) =? 2)
  then match cell b ((row + tr) / 2) ((col + tc) / 2) with
       | Some j => Returned (negb (String.eqb j "") && negb (owned_by cur j))
       | None => TypeError
       end
  else Returned false.

(** The number of elements of [l] that pass [f]. *)
Definition tally {A : Type} (f : A -> bool) (l : list A) : nat :=
  length (List.filter f l).

(** The starting layout in the words of the specification: men on the dark
    squares, Player B (black) on the first three rows, Player A (red) on the
    last three, nothing anywhere else. *)
Definition starting_layout (r c : Z) : string :=
  if dark r c then
    if r <? 3 then "black" else if 4 <? r then "red" else ""
  else "".

(** The owner written on a piece itself. *)
Definition owner_tag (piece : string) : string :=
  if JS.startsWith piece "red" then "red"
  else if JS.startsWith piece "black" then "black"
  else "".

(** Forward for the owner of [piece]: towards row 0 for red, towards row 7
    for black. *)
Definition forward_for (piece : string) (dy : Z) : bool :=
  (owned_by "red" piece && (dy =? -1)) || (owned_by "black" piece && (dy =? 1)).

(** The listed ways a move is refused, for a selected piece [p], a target
    holding [t], and, for a two-step move, a midpoint holding [mid]. *)
Definition refused (p t : string) (mid : option string) (dx dy : Z) : Prop :=
  t <> "" \/
  Z.abs dx <> Z.abs dy \/
  (Z.abs dx = 1 /\ Z.abs dy = 1 /\ is_king p = false /\ forward_for p dy = false) \/
  (Z.abs dx = 2 /\ Z.abs dy = 2 /\
   exists j, mid = Some j /\ (j = "" \/ owned_by (owner_tag p) j = true)).

(** A scripted game: each entry selects [(row, col)] and then moves the
    selection to [(targetRow, targetCol)]. *)
Definition turn (m : Z * Z * Z * Z) (s : GameService) : GameService :=
  let '(row, col, targetRow, targetCol) := m in
  after (movePiece targetRow targetCol (after (selectPiece row col s))).

Definition play (ms : list (Z * Z * Z * Z)) (s : GameService) : GameService :=
  fold_left (fun s m => turn m s) ms s.

(** Twenty-eight turns after which black is down to its last piece, at
    (4, 3), with the red man at (5, 4) ready to capture it. *)
Definition endgame : list (Z * Z * Z * Z) :=
  [(5, 6, 4, 5); (2, 5, 3, 4); (5, 4, 4, 3); (1, 6, 2, 5); (6, 3, 5, 4);
   (2, 3, 3, 2); (4, 5, 2, 3); (3, 2, 4, 1); (5, 2, 3, 0); (2, 5, 3, 4);
   (4, 3, 2, 5); (0, 5, 1, 6); (2, 3, 0, 5); (2, 7, 3, 6); (0, 5, 2, 7);
   (0, 3, 1, 4); (2, 5, 4, 7); (1, 2, 2, 3); (3, 0, 1, 2); (0, 7, 1, 6);
   (2, 7, 0, 5); (2, 3, 3, 2); (0, 5, 2, 3); (1, 0, 2, 1); (1, 2, 3, 0);
   (0, 1, 1, 2); (2, 3, 0, 1); (3, 2, 4, 3)].

(** The invariant of the running game. *)
Record wf (s : GameService) : Prop := mk_wf {
  wf_rows : length (board s) = 8%nat;
  wf_cols : Forall (fun rw => length rw = 8%nat) (board s);
  wf_tags : Forall (Forall is_tag) (board s);
  wf_player : currentPlayer s = "red" \/ currentPlayer s = "black";
  wf_selection : forall row col, selectedPiece s = Some (row, col) ->
    exists p, cell (board s) row col = Some p /\
              owned_by (currentPlayer s) p = true
}.

(** ** The component [CheckersComponent] of
    [src/app/components/checkers/checkers.component.ts]

    The component holds no state of its own: [gameService] is the injected
    service, so its methods are computations over the same [GameService].
    The boolean results of [movePiece] and [selectPiece] are discarded, and
    an exception thrown by the service propagates. *)

(** JavaScript truthiness of a string that may be [undefined]. *)
Definition truthy (v : option string) : bool :=
  match v with
  | Some a => negb (String.eqb a "")
  | None => false
  end.

Definition onCellClick (row col : Z) : M unit :=
  over <- gets gameOver ;;
  if over then ret tt
  else
    sel <- gets selectedPiece ;;
    match sel with
    | Some _ => movePiece row col ;;; ret tt
    | None => selectPiece row col ;;; ret tt
    end.

(** [selectedPiece?.row === rowIndex && selectedPiece?.col === colIndex]:
    with no selection both sides read [undefined], which is no number. *)
Definition isSelected (rowIndex colIndex : Z) : M bool :=
  sel <- gets selectedPiece ;;
  ret (match sel with Some (r, _) => r =? rowIndex | None => false end &&
       match sel with Some (_, c) => c =? colIndex | None => false end).

Definition resetGame : M unit := initializeBoard.

Definition handleClick (row col : Z) : M unit :=
  piece <- board_get row col ;;
  blocked <- (if truthy piece then
                p <- defined piece ;;
                cur <- gets currentPlayer ;;
                ret (negb (JS.startsWith p cur))
              else ret false) ;;
  if blocked then ret tt else onCellClick row col.

(** The states the component can bring the service into. *)
Inductive ui_reachable : GameService -> Prop :=
| ui_new : ui_reachable new_GameService
| ui_handleClick s row col :
    ui_reachable s -> ui_reachable (after (handleClick row col s))
| ui_onCellClick s row col :
    ui_reachable s -> ui_reachable (after (onCellClick row col s))
| ui_resetGame s :
    ui_reachable s -> ui_reachable (after (resetGame s)).

(** A sequence of clicks on cells. *)
Definition clicks (cs : list (Z * Z)) (s : GameService) : GameService :=
  fold_left (fun s c => after (handleClick (fst c) (snd c) s)) cs s.

(** ** Arrays and cells *)

Section Arrays.
Context {A : Type}.
Implicit Types (l : list A) (i j : Z).

Lemma index_Some l i x :
  JS.index l i = Some x <-> 0 <= i /\ l !! Z.to_nat i = Some x.
Proof.
  unfold JS.index. destruct (Z.leb_spec 0 i); split; intros H'.
  - auto.
  - tauto.
  - discriminate.
  - lia.
Qed.

Lemma index_bounds l i x :
  JS.index l i = Some x -> 0 <= i < Z.of_nat (length l).
Proof.
  intros [Hi Hl]%index_Some. apply lookup_lt_Some in Hl. lia.
Qed.

Lemma index_in_bounds l i :
  0 <= i < Z.of_nat (length l) -> exists x, JS.index l i = Some x.
Proof.
  intros Hi. destruct (lookup_lt_is_Some_2 l (Z.to_nat i)) as [x Hx]; [lia|].
  exists x. apply index_Some. split; [lia|done].
Qed.

Lemma index_insert_same l i x y :
  JS.index l i = Some x -> JS.index (<[Z.to_nat i := y]> l) i = Some y.
Proof.
  intros [Hi Hl]%index_Some. apply index_Some. split; [done|].
  apply list_lookup_insert_eq. by eapply lookup_lt_Some.
Qed.

Lemma index_insert_other l i j y :
  0 <= i -> i <> j -> JS.index (<[Z.to_nat i := y]> l) j = JS.index l j.
Proof.
  intros Hi Hij. unfold JS.index. destruct (Z.leb_spec 0 j); [|done].
  apply list_lookup_insert_ne. lia.
Qed.
End Arrays.

Lemma cell_Some b r c v :
  cell b r c = Some v <->
  exists rw, JS.index b r = Some rw /\ JS.index rw c = Some v.
Proof.
  unfold cell. destruct (JS.index b r) as [rw|]; split.
  - eauto.
  - by intros (rw' & [= <-] & H).
  - discriminate.
  - by intros (rw' & [=] & _).
Qed.

Lemma cell_put_same b r c v old :
  cell b r c = Some old -> cell (put b r c v) r c = Some v.
Proof.
  intros (rw & Hr & Hc)%cell_Some. unfold put, cell. rewrite Hr, Hc.
  rewrite (index_insert_same _ _ _ _ Hr).
  by apply (index_insert_same _ _ _ _ Hc).
Qed.

Lemma cell_put_other b r c v r' c' :
  r <> r' \/ c <> c' -> cell (put b r c v) r' c' = cell b r' c'.
Proof.
  intros Hne. unfold put.
  destruct (JS.index b r) as [rw|] eqn:Hr; [|done].
  destruct (JS.index rw c) as [old|] eqn:Hc; [|done].
  apply index_Some in Hr as Hr'. apply index_Some in Hc as Hc'.
  unfold cell. destruct (Z.eq_dec r r') as [<-|Hrr].
  - rewrite (index_insert_same _ _ _ _ Hr), Hr.
    apply index_insert_other; [tauto|]. destruct Hne; congruence.
  - by rewrite index_insert_other by tauto.
Qed.

Lemma cell_put b r c v r' c' old :
  cell b r c = Some old ->
  cell (put b r c v) r' c' =
  if decide (r = r' /\ c = c') then Some v else cell b r' c'.
Proof.
  intros Hold. case_decide as Heq.
  - destruct Heq as [<- <-]. by eapply cell_put_same.
  - apply cell_put_other. lia.
Qed.

Lemma put_outside b r c v : cell b r c = None -> put b r c v = b.
Proof.
  unfold put, cell. destruct (JS.index b r) as [rw|]; [|done].
  by intros ->.
Qed.

Lemma cell_put_is_Some b r c v r' c' :
  is_Some (cell (put b r c v) r' c') <-> is_Some (cell b r' c').
Proof.
  destruct (cell b r c) as [old|] eqn:Hold.
  - rewrite (cell_put _ _ _ _ _ _ _ Hold). case_decide as Heq; [|done].
    destruct Heq as [<- <-]. rewrite Hold. split; eauto.
  - by rewrite put_outside.
Qed.

(** ** Running the monad *)

Lemma bind_Returned {A B} (m : M A) (k : A -> M B) s a s' :
  m s = (Returned a, s') -> bind m k s = k a s'.
Proof. unfold bind. by intros ->. Qed.

Lemma bind_TypeError {A B} (m : M A) (k : A -> M B) s s' :
  m s = (TypeError, s') -> bind m k s = (TypeError, s').
Proof. unfold bind. by intros ->. Qed.

Lemma bind_gets {A B} (f : GameService -> A) (k : A -> M B) s :
  bind (gets f) k s = k (f s) s.
Proof. done. Qed.

Lemma bind_ret {A B} (a : A) (k : A -> M B) s : bind (ret a) k s = k a s.
Proof. done. Qed.

Lemma bind_modify {B} (f : GameService -> GameService) (k : unit -> M B) s :
  bind (modify f) k s = k tt (f s).
Proof. done. Qed.

Lemma board_get_cell s r c v :
  cell (board s) r c = Some v -> board_get r c s = (Returned (Some v), s).
Proof.
  intros (rw & Hr & Hc)%cell_Some. unfold board_get. by rewrite Hr, Hc.
Qed.

Lemma board_get_outside s r c :
  cell (board s) r c = None ->
  board_get r c s = (TypeError, s) \/ board_get r c s = (Returned None, s).
Proof.
  unfold cell, board_get. destruct (JS.index (board s) r); [|by left].
  intros ->. by right.
Qed.

Lemma board_set_cell s r c v old :
  cell (board s) r c = Some old ->
  board_set r c (Some v) s = (Returned tt, set_board (put (board s) r c v) s).
Proof.
  intros (rw & Hr & Hc)%cell_Some. unfold board_set, put. by rewrite Hr, Hc.
Qed.

Lemma half_of_even n : Z.even n = true -> half n = ret (n / 2).
Proof. unfold half. by intros ->. Qed.

Lemma even_sum_of_jump a b : Z.abs (b - a) = 2 -> Z.even (a + b) = true.
Proof.
  intros H. rewrite Z.even_spec.
  assert (b = a + 2 \/ b = a - 2) as [->| ->] by lia.
  - exists (a + 1). lia.
  - exists (a - 1). lia.
Qed.

(** [isValidMove] reads the service and leaves it as it was. *)
Lemma isValidMove_run s tr tc row col p t :
  selectedPiece s = Some (row, col) ->
  cell (board s) row col = Some p ->
  cell (board s) tr tc = Some t ->
  isValidMove tr tc s =
  (validity (board s) (currentPlayer s) row col tr tc p t, s).
Proof.
  intros Hsel Hp Ht. unfold isValidMove, validity.
  rewrite bind_gets, Hsel. cbn [destructure]. rewrite bind_ret.
  rewrite (bind_Returned _ _ _ _ _ (board_get_cell _ _ _ _ Hp)).
  rewrite (bind_Returned _ _ _ _ _ (board_get_cell _ _ _ _ Ht)).
  cbn [JS.strict_neq]. destruct (negb (t =? ""))%string; [done|].
  cbn [defined]. rewrite bind_ret, bind_gets.
  destruct ((Z.abs (tc - col) =? 1) && (Z.abs (tr - row) =? 1)); [done|].
  destruct ((Z.abs (tc - col) =? 2) && (Z.abs (tr - row) =? 2)) eqn:Hjump;
    [|done].
  apply andb_true_iff in Hjump as [Hdx%Z.eqb_eq Hdy%Z.eqb_eq].
  rewrite !half_of_even by (by apply even_sum_of_jump). rewrite !bind_ret.
  destruct (cell (board s) ((row + tr) / 2) ((col + tc) / 2)) as [j|] eqn:Hj.
  - rewrite (bind_Returned _ _ _ _ _ (board_get_cell _ _ _ _ Hj)).
    cbn [JS.strict_neq]. destruct (negb (j =? ""))%string; [|done].
    rewrite (bind_Returned _ _ _ _ _ (board_get_cell _ _ _ _ Hj)).
    cbn [defined]. by rewrite bind_ret.
  - destruct (board_get_outside _ _ _ Hj) as [E|E].
    + by rewrite (bind_TypeError _ _ _ _ E).
    + rewrite (bind_Returned _ _ _ _ _ E). cbn [JS.strict_neq].
      rewrite (bind_Returned _ _ _ _ _ E). done.
Qed.

Lemma board_set_is_Some s r c v :
  is_Some (cell (board s) r c) ->
  board_set r c (Some v) s = (Returned tt, set_board (put (board s) r c v) s).
Proof. intros [old Hold]. by eapply board_set_cell. Qed.

Lemma switchPlayer_run s :
  switchPlayer s =
  (Returned tt, set_currentPlayer (opponent (currentPlayer s)) s).
Proof. done. Qed.

Lemma checkGameOver_run s :
  checkGameOver s =
  (Returned tt, set_gameOver (gameOver s || no_pieces (board s)) s).
Proof.
  unfold checkGameOver, countPieces, no_pieces. rewrite !bind_gets.
  destruct s as [b cur sel g]; cbn [board gameOver].
  destruct (Nat.eqb (count_color b "red") 0), (Nat.eqb (count_color b "black") 0);
    cbn; unfold modify, ret, set_gameOver; cbn;
    rewrite ?orb_true_r, ?orb_false_r; done.
Qed.

Lemma validity_true b cur row col tr tc p t :
  validity b cur row col tr tc p t = Returned true ->
  t = "" /\
  ((Z.abs (tc - col) = 1 /\ Z.abs (tr - row) = 1 /\
    is_king p || forwardMove cur (tr - row) = true) \/
   (Z.abs (tc - col) = 2 /\ Z.abs (tr - row) = 2 /\
    exists j, cell b ((row + tr) / 2) ((col + tc) / 2) = Some j /\
              j <> "" /\ owned_by cur j = false)).
Proof.
  unfold validity. destruct (String.eqb_spec t ""); cbn [negb]; [|done].
  intros H. split; [done|].
  destruct (Z.eqb_spec (Z.abs (tc - col)) 1), (Z.eqb_spec (Z.abs (tr - row)) 1);
    cbn [andb] in H; try (left; by simplify_eq).
  all: destruct (Z.eqb_spec (Z.abs (tc - col)) 2),
         (Z.eqb_spec (Z.abs (tr - row)) 2); cbn [andb] in H; try done.
  all: right; do 2 (split; [done|]).
  all: destruct (cell b _ _) as [j|]; [|done]; exists j; split; [done|].
  all: destruct (String.eqb_spec j ""); cbn [negb andb] in H; [done|].
  all: split; [done|]; by destruct (owned_by cur j).
Qed.

(** The complete behaviour of [movePiece] when the selection and the target
    are cells of the board. *)
Lemma movePiece_run s tr tc row col p t :
  selectedPiece s = Some (row, col) ->
  cell (board s) row col = Some p ->
  cell (board s) tr tc = Some t ->
  movePiece tr tc s =
  match validity (board s) (currentPlayer s) row col tr tc p t with
  | Returned true => (Returned true, moved s row col tr tc p)
  | Returned false => (Returned false, set_selectedPiece None s)
  | TypeError => (TypeError, s)
  | OutOfModel => (OutOfModel, s)
  end.
Proof.
  intros Hsel Hp Ht. unfold movePiece.
  destruct (validity _ _ _ _ _ _ _ _) as [[]| |] eqn:Hv.
  2: { erewrite bind_Returned by (erewrite isValidMove_run by done; by rewrite Hv).
       done. }
  2,3: unfold bind; erewrite isValidMove_run by done; by rewrite Hv.
  erewrite bind_Returned by (erewrite isValidMove_run by done; by rewrite Hv).
  cbn [negb]. rewrite bind_gets, Hsel. cbn [destructure]. rewrite bind_ret.
  rewrite (bind_Returned _ _ _ _ _ (board_get_cell _ _ _ _ Hp)).
  rewrite (bind_Returned _ _ _ _ _ (board_set_cell _ _ _ _ _ Ht)).
  erewrite bind_Returned; cycle 1.
  { apply board_set_is_Some. cbn. apply cell_put_is_Some. by rewrite Hp. }
  cbn [board set_board].
  apply validity_true in Hv as [-> Hv].
  unfold moved, moved_board.
  set (b1 := put (put (board s) tr tc p) row col "").
  assert (forall r c, is_Some (cell b1 r c) <-> is_Some (cell (board s) r c))
    as Hb1.
  { intros r c. unfold b1. by rewrite !cell_put_is_Some. }
  erewrite bind_Returned with
    (a := tt)
    (s' := set_board (if Z.abs (tr - row) =? 2
                      then put b1 ((row + tr) / 2) ((col + tc) / 2) "" else b1) s);
    cycle 1.
  { destruct Hv as [(_ & Hdy & _)|(Hdx & Hdy & j & Hj & _)]; rewrite Hdy; cbn.
    - unfold ret, set_board. by destruct s.
    - rewrite !half_of_even by (by apply even_sum_of_jump). rewrite !bind_ret.
      rewrite board_set_is_Some; [done|]. cbn. apply Hb1. by rewrite Hj. }
  set (b2 := if Z.abs (tr - row) =? 2 then _ else b1).
  assert (forall r c, is_Some (cell b2 r c) <-> is_Some (cell (board s) r c))
    as Hb2.
  { intros r c. unfold b2. destruct (Z.abs (tr - row) =? 2); [|done].
    by rewrite cell_put_is_Some. }
  rewrite bind_gets. cbn [currentPlayer set_board].
  fold (crowning (currentPlayer s) tr).
  erewrite bind_Returned with
    (a := tt)
    (s' := set_board (if crowning (currentPlayer s) tr
                      then put b2 tr tc (String.append (currentPlayer s) "-king")
                      else b2) s);
    cycle 1.
  { destruct (crowning (currentPlayer s) tr).
    - rewrite board_set_is_Some; [done|]. cbn. apply Hb2. by rewrite Ht.
    - unfold ret, set_board. by destruct s. }
  rewrite bind_modify.
  rewrite (bind_Returned _ _ _ _ _ (switchPlayer_run _)).
  rewrite (bind_Returned _ _ _ _ _ (checkGameOver_run _)). done.
Qed.

Lemma selectPiece_run s row col v :
  cell (board s) row col = Some v ->
  selectPiece row col s =
  if owned_by (currentPlayer s) v
  then (Returned true, set_selectedPiece (Some (row, col)) s)
  else (Returned false, s).
Proof.
  intros Hv. unfold selectPiece, owned_by.
  rewrite (bind_Returned _ _ _ _ _ (board_get_cell _ _ _ _ Hv)).
  cbn [defined]. rewrite bind_ret, bind_gets.
  by destruct (JS.startsWith v (currentPlayer s)).
Qed.

Lemma selectPiece_outside s row col :
  cell (board s) row col = None -> selectPiece row col s = (TypeError, s).
Proof.
  intros Hv. unfold selectPiece.
  destruct (board_get_outside _ _ _ Hv) as [E|E].
  - by rewrite (bind_TypeError _ _ _ _ E).
  - by rewrite (bind_Returned _ _ _ _ _ E).
Qed.

Lemma isValidMove_unselected s tr tc :
  selectedPiece s = None -> isValidMove tr tc s = (TypeError, s).
Proof. intros Hsel. unfold isValidMove. by rewrite bind_gets, Hsel. Qed.

Lemma movePiece_unselected s tr tc :
  selectedPiece s = None -> movePiece tr tc s = (TypeError, s).
Proof.
  intros Hsel. unfold movePiece.
  by rewrite (bind_TypeError _ _ _ _ (isValidMove_unselected _ _ _ Hsel)).
Qed.

(** When the selection or the target is not a cell of the board,
    [isValidMove] throws or answers [false]. *)
Lemma isValidMove_outside s tr tc row col :
  selectedPiece s = Some (row, col) ->
  cell (board s) row col = None \/ cell (board s) tr tc = None ->
  isValidMove tr tc s = (TypeError, s) \/
  isValidMove tr tc s = (Returned false, s).
Proof.
  intros Hsel Hout. unfold isValidMove.
  rewrite bind_gets, Hsel. cbn [destructure]. rewrite bind_ret.
  destruct (cell (board s) row col) as [p|] eqn:Hp.
  - destruct Hout as [|Ht]; [done|].
    rewrite (bind_Returned _ _ _ _ _ (board_get_cell _ _ _ _ Hp)).
    destruct (board_get_outside _ _ _ Ht) as [E|E].
    + left. by rewrite (bind_TypeError _ _ _ _ E).
    + right. by rewrite (bind_Returned _ _ _ _ _ E).
  - destruct (board_get_outside _ _ _ Hp) as [E|E].
    + left. by rewrite (bind_TypeError _ _ _ _ E).
    + rewrite (bind_Returned _ _ _ _ _ E).
      destruct (JS.index (board s) tr) as [rw|] eqn:Hrw.
      * assert (board_get tr tc s = (Returned (JS.index rw tc), s)) as E2
          by (unfold board_get; by rewrite Hrw).
        rewrite (bind_Returned _ _ _ _ _ E2).
        destruct (JS.strict_neq (JS.index rw tc) ""); [by right|by left].
      * left. erewrite bind_TypeError; [done|]. unfold board_get. by rewrite Hrw.
Qed.

(** Every call of [movePiece] ends in one of three ways. *)
Lemma movePiece_cases s tr tc :
  movePiece tr tc s = (TypeError, s) \/
  movePiece tr tc s = (Returned false, set_selectedPiece None s) \/
  exists row col p,
    selectedPiece s = Some (row, col) /\
    cell (board s) row col = Some p /\
    cell (board s) tr tc = Some "" /\
    validity (board s) (currentPlayer s) row col tr tc p "" = Returned true /\
    movePiece tr tc s = (Returned true, moved s row col tr tc p).
Proof.
  destruct (selectedPiece s) as [[row col]|] eqn:Hsel;
    [|left; by apply movePiece_unselected].
  destruct (cell (board s) row col) as [p|] eqn:Hp,
           (cell (board s) tr tc) as [t|] eqn:Ht.
  - rewrite (movePiece_run _ _ _ _ _ _ _ Hsel Hp Ht).
    destruct (validity _ _ _ _ _ _ _ _) as [[]| |] eqn:Hv; [|by auto..|].
    + right; right. exists row, col, p.
      destruct (validity_true _ _ _ _ _ _ _ _ Hv) as [-> _]. done.
    + exfalso. unfold validity in Hv.
      repeat case_match; discriminate.
  - destruct (isValidMove_outside s tr tc row col Hsel) as [E|E]; [auto|..];
      unfold movePiece.
    + left. by rewrite (bind_TypeError _ _ _ _ E).
    + right; left. by rewrite (bind_Returned _ _ _ _ _ E).
  - destruct (isValidMove_outside s tr tc row col Hsel) as [E|E]; [auto|..];
      unfold movePiece.
    + left. by rewrite (bind_TypeError _ _ _ _ E).
    + right; left. by rewrite (bind_Returned _ _ _ _ _ E).
  - destruct (isValidMove_outside s tr tc row col Hsel) as [E|E]; [auto|..];
      unfold movePiece.
    + left. by rewrite (bind_TypeError _ _ _ _ E).
    + right; left. by rewrite (bind_Returned _ _ _ _ _ E).
Qed.

Lemma selectPiece_cases s row col :
  selectPiece row col s = (TypeError, s) \/
  selectPiece row col s = (Returned false, s) \/
  exists v, cell (board s) row col = Some v /\
            owned_by (currentPlayer s) v = true /\
            selectPiece row col s =
            (Returned true, set_selectedPiece (Some (row, col)) s).
Proof.
  destruct (cell (board s) row col) as [v|] eqn:Hv.
  - rewrite (selectPiece_run _ _ _ _ Hv).
    destruct (owned_by (currentPlayer s) v) eqn:Ho; [|by auto].
    right; right. by exists v.
  - left. by apply selectPiece_outside.
Qed.

(** No method ever leaves the fragment of JavaScript that is modelled. *)
Theorem never_OutOfModel s :
  result (initializeBoard s) <> OutOfModel /\
  (forall row col, result (selectPiece row col s) <> OutOfModel) /\
  (forall targetRow targetCol,
     result (movePiece targetRow targetCol s) <> OutOfModel).
Proof.
  split; [done|]. split.
  - intros row col.
    destruct (selectPiece_cases s row col) as [->|[->|(? & _ & _ & ->)]]; done.
  - intros tr tc.
    destruct (movePiece_cases s tr tc)
      as [->|[->|(? & ? & ? & _ & _ & _ & _ & ->)]]; done.
Qed.

(** ** The invariant holds in every reachable state *)

Lemma put_length b r c v : length (put b r c v) = length b.
Proof. unfold put. repeat case_match; by rewrite ?length_insert. Qed.

Lemma put_cols n b r c v :
  Forall (fun rw => length rw = n) b ->
  Forall (fun rw => length rw = n) (put b r c v).
Proof.
  intros Hb. unfold put.
  destruct (JS.index b r) as [rw|] eqn:Hr; [|done].
  destruct (JS.index rw c); [|done].
  apply Forall_insert; [done|]. rewrite length_insert.
  apply index_Some in Hr as [_ Hr]. by apply (Forall_lookup_1 _ _ _ _ Hb Hr).
Qed.

Lemma put_tags b r c v :
  Forall (Forall is_tag) b -> is_tag v -> Forall (Forall is_tag) (put b r c v).
Proof.
  intros Hb Hv. unfold put.
  destruct (JS.index b r) as [rw|] eqn:Hr; [|done].
  destruct (JS.index rw c); [|done].
  apply Forall_insert; [done|]. apply Forall_insert; [|done].
  apply index_Some in Hr as [_ Hr]. by apply (Forall_lookup_1 _ _ _ _ Hb Hr).
Qed.

Lemma cell_tag b r c v :
  Forall (Forall is_tag) b -> cell b r c = Some v -> is_tag v.
Proof.
  intros Hb (rw & [_ Hr]%index_Some & [_ Hc]%index_Some)%cell_Some.
  eapply Forall_lookup_1; [|done]. by eapply Forall_lookup_1.
Qed.

Lemma cell_in_bounds b r c :
  length b = 8%nat -> Forall (fun rw => length rw = 8%nat) b ->
  0 <= r < 8 -> 0 <= c < 8 -> is_Some (cell b r c).
Proof.
  intros Hrows Hcols Hr Hc.
  destruct (index_in_bounds b r) as [rw Hrw]; [lia|].
  assert (length rw = 8%nat) as Hlen.
  { apply index_Some in Hrw as [_ Hrw]. by apply (Forall_lookup_1 _ _ _ _ Hcols Hrw). }
  destruct (index_in_bounds rw c) as [v Hv]; [lia|].
  exists v. apply cell_Some. eauto.
Qed.

Lemma cell_bounds b r c v :
  length b = 8%nat -> Forall (fun rw => length rw = 8%nat) b ->
  cell b r c = Some v -> 0 <= r < 8 /\ 0 <= c < 8.
Proof.
  intros Hrows Hcols (rw & Hrw & Hv)%cell_Some.
  apply index_bounds in Hrw as Hr. apply index_bounds in Hv as Hc.
  apply index_Some in Hrw as [_ Hrw].
  rewrite (Forall_lookup_1 _ _ _ _ Hcols Hrw) in Hc. lia.
Qed.

Lemma opponent_player cur :
  cur = "red" \/ cur = "black" ->
  opponent cur = "red" \/ opponent cur = "black".
Proof. intros [-> | ->]; cbn; auto. Qed.

Lemma king_tag cur :
  cur = "red" \/ cur = "black" -> is_tag (String.append cur "-king").
Proof. intros [-> | ->]; cbn; unfold is_tag; auto. Qed.

Lemma wf_initializeBoard s : wf (after (initializeBoard s)).
Proof.
  split; cbn.
  - done.
  - repeat constructor.
  - repeat (constructor; [repeat (constructor; [unfold is_tag; auto|])|]);
      constructor.
  - auto.
  - discriminate.
Qed.

Lemma wf_unselect s : wf s -> wf (set_selectedPiece None s).
Proof. intros []. split; cbn; try done. Qed.

Lemma wf_selectPiece s row col : wf s -> wf (after (selectPiece row col s)).
Proof.
  intros Hs.
  destruct (selectPiece_cases s row col) as [->|[->|(v & Hv & Ho & ->)]];
    [done..|].
  destruct Hs. split; cbn; try done.
  intros ?? [= <- <-]. eauto.
Qed.

Lemma wf_moved s row col tr tc p :
  wf s -> cell (board s) row col = Some p -> wf (moved s row col tr tc p).
Proof.
  intros [] Hp. unfold moved, moved_board.
  pose proof (cell_tag _ _ _ _ wf_tags0 Hp) as Htag.
  pose proof (king_tag _ wf_player0) as Hking.
  assert (is_tag "") as Hempty by (unfold is_tag; auto).
  split; cbn.
  - repeat case_match; by rewrite ?put_length.
  - repeat case_match; auto using put_cols.
  - repeat case_match; auto using put_tags.
  - by apply opponent_player.
  - discriminate.
Qed.

Lemma wf_movePiece s tr tc : wf s -> wf (after (movePiece tr tc s)).
Proof.
  intros Hs.
  destruct (movePiece_cases s tr tc)
    as [->|[->|(row & col & p & _ & Hp & _ & _ & ->)]].
  - done.
  - by apply wf_unselect.
  - by apply wf_moved.
Qed.

Lemma reachable_wf s : reachable s -> wf s.
Proof.
  induction 1; auto using wf_initializeBoard, wf_selectPiece, wf_movePiece.
  apply wf_initializeBoard.
Qed.

(** ** Counting pieces *)

Section Counting.
Context {A : Type} (f : A -> bool).

Lemma tally_app l1 l2 : tally f (l1 ++ l2) = (tally f l1 + tally f l2)%nat.
Proof. unfold tally. by rewrite List.filter_app, length_app. Qed.

Lemma tally_insert l i x y :
  l !! i = Some x ->
  (tally f (<[i := y]> l) + Nat.b2n (f x) = tally f l + Nat.b2n (f y))%nat.
Proof.
  revert i. induction l as [|a l IH]; intros [|i] Hi; try done.
  - injection Hi as ->. unfold tally. cbn.
    destruct (f x), (f y); cbn; lia.
  - specialize (IH i Hi). unfold tally in *.
    change (<[S i := y]> (a :: l)) with (a :: <[i := y]> l).
    cbn [List.filter]. destruct (f a); cbn [length]; [|exact IH].
    rewrite !Nat.add_succ_l. by f_equal.
Qed.

Lemma tally_concat_insert (ll : list (list A)) i rw rw' :
  ll !! i = Some rw ->
  (tally f (concat (<[i := rw']> ll)) + tally f rw =
   tally f (concat ll) + tally f rw')%nat.
Proof.
  revert i. induction ll as [|a ll IH]; intros [|i] Hi; try done.
  - injection Hi as ->.
    change (<[0%nat := rw']> (rw :: ll)) with (rw' :: ll).
    cbn [concat]. rewrite !tally_app. lia.
  - specialize (IH i Hi).
    change (<[S i := rw']> (a :: ll)) with (a :: <[i := rw']> ll).
    cbn [concat]. rewrite !tally_app. lia.
Qed.
End Counting.

Lemma count_put b r c v old color :
  cell b r c = Some old ->
  (count_color (put b r c v) color + Nat.b2n (owned_by color old) =
   count_color b color + Nat.b2n (owned_by color v))%nat.
Proof.
  intros (rw & Hr & Hc)%cell_Some. unfold put. rewrite Hr, Hc.
  apply index_Some in Hr as [_ Hr]. apply index_Some in Hc as [_ Hc].
  pose proof (tally_concat_insert (fun piece => JS.startsWith piece color)
                _ _ _ (<[Z.to_nat c := v]> rw) Hr) as H1.
  pose proof (tally_insert (fun piece => JS.startsWith piece color)
                _ _ _ v Hc) as H2.
  unfold count_color, owned_by. unfold tally in *. lia.
Qed.

Lemma count_put_le b r c color :
  (count_color (put b r c "") color <= count_color b color)%nat.
Proof.
  destruct (cell b r c) as [old|] eqn:Hold; [|by rewrite put_outside].
  pose proof (count_put b r c "" old color Hold) as H.
  assert (owned_by color "" = true -> owned_by color old = true) as Himp.
  { unfold owned_by, JS.startsWith. destruct color; [|done]. by destruct old. }
  destruct (owned_by color ""), (owned_by color old); cbn in H;
    try lia. all: by specialize (Himp eq_refl).
Qed.

(** A well-formed piece of the current player is that player's man or king. *)
Lemma owned_tag cur p :
  cur = "red" \/ cur = "black" -> is_tag p -> owned_by cur p = true ->
  p = cur \/ p = String.append cur "-king".
Proof.
  intros [-> | ->] [->|[->|[->|[->| ->]]]]; cbn; intros; auto; discriminate.
Qed.

(** A successful move never adds a piece of either colour. *)
Lemma count_moved_le s row col tr tc p color :
  wf s ->
  cell (board s) row col = Some p ->
  owned_by (currentPlayer s) p = true ->
  cell (board s) tr tc = Some "" ->
  color = "red" \/ color = "black" ->
  (count_color (moved_board (board s) (currentPlayer s) row col tr tc p) color
   <= count_color (board s) color)%nat.
Proof.
  intros Hs Hp Ho Ht Hcolor. unfold moved_board.
  pose proof (owned_tag _ _ (wf_player _ Hs)
                (cell_tag _ _ _ _ (wf_tags _ Hs) Hp) Ho) as Hpc.
  assert (row <> tr \/ col <> tc) as Hne.
  { destruct (decide (row = tr /\ col = tc)) as [[-> ->]|]; [|lia].
    rewrite Hp in Ht. injection Ht as ->.
    destruct (wf_player _ Hs) as [E|E]; rewrite E in Ho; done. }
  set (b1 := put (put (board s) tr tc p) row col "").
  assert (cell b1 tr tc = Some p) as Hb1t.
  { unfold b1. rewrite cell_put_other by lia. by eapply cell_put_same. }
  assert (count_color b1 color = count_color (board s) color) as Hc1.
  { unfold b1.
    pose proof (count_put (board s) tr tc p "" color Ht) as H1.
    assert (cell (put (board s) tr tc p) row col = Some p) as Hp'
      by (by rewrite cell_put_other by lia).
    pose proof (count_put _ row col "" p color Hp') as H2.
    lia. }
  set (b2 := if Z.abs (tr - row) =? 2 then _ else b1).
  assert (cell b2 tr tc = Some p /\
          (count_color b2 color <= count_color (board s) color)%nat)
    as [Hb2t Hc2].
  { unfold b2. destruct (Z.eqb_spec (Z.abs (tr - row)) 2) as [Hdy|];
      [|split; [done|lia]].
    split.
    - rewrite cell_put_other; [done|]. left. Z.div_mod_to_equations. lia.
    - rewrite <- Hc1. apply count_put_le. }
  destruct (crowning (currentPlayer s) tr); [|done].
  pose proof (count_put b2 tr tc (String.append (currentPlayer s) "-king")
                p color Hb2t) as H3.
  assert (owned_by color p =
          owned_by color (String.append (currentPlayer s) "-king")) as Hsame.
  { destruct (wf_player _ Hs) as [E|E]; rewrite E in *;
      destruct Hpc as [-> | ->], Hcolor as [-> | ->]; done. }
  rewrite Hsame in H3. lia.
Qed.

(** In a reachable state the flag is up exactly when a side has no piece. *)
Lemma reachable_gameOver s :
  reachable s -> gameOver s = no_pieces (board s).
Proof.
  induction 1 as [|s Hs IH|s row col Hs IH|s tr tc Hs IH]; [done..| |].
  - destruct (selectPiece_cases s row col) as [->|[->|(v & _ & _ & ->)]]; done.
  - apply reachable_wf in Hs as Hwf.
    destruct (movePiece_cases s tr tc)
      as [->|[->|(row & col & p & Hsel & Hp & Ht & _ & ->)]]; [done..|].
    cbn. rewrite IH.
    destruct (no_pieces (board s)) eqn:Hnone; [|done]. cbn. symmetry.
    destruct (wf_selection _ Hwf _ _ Hsel) as (p' & Hp' & Ho).
    rewrite Hp in Hp'. injection Hp' as <-.
    unfold no_pieces in *. apply orb_true_iff in Hnone as [H0%Nat.eqb_eq|H0%Nat.eqb_eq];
      apply orb_true_iff; [left|right]; apply Nat.eqb_eq.
    + pose proof (count_moved_le s row col tr tc p "red" Hwf Hp Ho Ht) as Hle.
      specialize (Hle (or_introl eq_refl)). lia.
    + pose proof (count_moved_le s row col tr tc p "black" Hwf Hp Ho Ht) as Hle.
      specialize (Hle (or_intror eq_refl)). lia.
Qed.

(** ** Facts shared by the properties below *)

(** The selected piece is a man or a king of the current player. *)
Lemma selected_owner s row col p :
  wf s -> selectedPiece s = Some (row, col) ->
  cell (board s) row col = Some p ->
  owned_by (currentPlayer s) p = true /\
  (p = currentPlayer s \/ p = String.append (currentPlayer s) "-king") /\
  owner_tag p = currentPlayer s /\
  (forall dy, forwardMove (currentPlayer s) dy = forward_for p dy).
Proof.
  intros Hwf Hsel Hp.
  destruct (wf_selection _ Hwf _ _ Hsel) as (p' & Hp' & Ho).
  rewrite Hp in Hp'. injection Hp' as <-.
  pose proof (owned_tag _ _ (wf_player _ Hwf)
                (cell_tag _ _ _ _ (wf_tags _ Hwf) Hp) Ho) as Hpc.
  do 2 (split; [done|]).
  split; [|intros dy]; destruct (wf_player _ Hwf) as [E|E]; rewrite E in *;
    by destruct Hpc as [-> | ->].
Qed.

Lemma opposing_tag cur j :
  cur = "red" \/ cur = "black" -> is_tag j ->
  negb (String.eqb j "") && negb (owned_by cur j) = owned_by (opponent cur) j.
Proof. by intros [-> | ->] [->|[->|[->|[->| ->]]]]. Qed.

Lemma crowning_spec cur tr :
  crowning cur tr = true <-> (cur = "red" /\ tr = 0) \/ (cur = "black" /\ tr = 7).
Proof.
  unfold crowning, JS.strict_eq.
  rewrite orb_true_iff, !andb_true_iff, !String.eqb_eq, !Z.eqb_eq. done.
Qed.

(** The three cells a successful move writes. *)
Lemma moved_cells b cur row col tr tc p :
  cell b row col = Some p -> cell b tr tc = Some "" -> row <> tr ->
  cell (moved_board b cur row col tr tc p) tr tc =
    Some (if crowning cur tr then String.append cur "-king" else p) /\
  cell (moved_board b cur row col tr tc p) row col = Some "" /\
  (Z.abs (tr - row) = 2 ->
   is_Some (cell b ((row + tr) / 2) ((col + tc) / 2)) ->
   cell (moved_board b cur row col tr tc p)
        ((row + tr) / 2) ((col + tc) / 2) = Some "").
Proof.
  intros Hp Ht Hne. unfold moved_board.
  set (b1 := put (put b tr tc p) row col "").
  assert (cell b1 tr tc = Some p) as Hb1t.
  { unfold b1. rewrite cell_put_other by lia. by eapply cell_put_same. }
  assert (cell b1 row col = Some "") as Hb1s.
  { unfold b1. eapply cell_put_same. by rewrite cell_put_other by lia. }
  assert (forall r c, is_Some (cell b1 r c) <-> is_Some (cell b r c)) as Hb1.
  { intros r c. unfold b1. by rewrite !cell_put_is_Some. }
  set (b2 := if Z.abs (tr - row) =? 2 then _ else b1).
  assert (cell b2 tr tc = Some p /\ cell b2 row col = Some "" /\
          (Z.abs (tr - row) = 2 ->
           is_Some (cell b ((row + tr) / 2) ((col + tc) / 2)) ->
           cell b2 ((row + tr) / 2) ((col + tc) / 2) = Some ""))
    as (Hb2t & Hb2s & Hb2m).
  { unfold b2. destruct (Z.eqb_spec (Z.abs (tr - row)) 2) as [Hdy|]; [|done].
    split; [|split].
    - rewrite cell_put_other; [done|]. left. Z.div_mod_to_equations. lia.
    - rewrite cell_put_other; [done|]. left. Z.div_mod_to_equations. lia.
    - intros _ [j Hj]%Hb1. by eapply cell_put_same. }
  destruct (crowning cur tr); [|done].
  split; [by eapply cell_put_same|]. split.
  - by rewrite cell_put_other by lia.
  - intros Hdy Hm. rewrite cell_put_other; [auto|].
    left. Z.div_mod_to_equations. lia.
Qed.

Lemma movePiece_jump_run s tr tc row col p j :
  selectedPiece s = Some (row, col) ->
  cell (board s) row col = Some p ->
  cell (board s) tr tc = Some "" ->
  Z.abs (tc - col) = 2 -> Z.abs (tr - row) = 2 ->
  cell (board s) ((row + tr) / 2) ((col + tc) / 2) = Some j ->
  movePiece tr tc s =
  if negb (String.eqb j "") && negb (owned_by (currentPlayer s) j)
  then (Returned true, moved s row col tr tc p)
  else (Returned false, set_selectedPiece None s).
Proof.
  intros Hsel Hp Ht Hdx Hdy Hj.
  rewrite (movePiece_run _ _ _ _ _ _ _ Hsel Hp Ht). unfold validity.
  rewrite Hdx, Hdy, Hj.
  change (negb ("" =? "")%string) with false.
  change ((2 =? 1) && (2 =? 1)) with false.
  change ((2 =? 2) && (2 =? 2)) with true. cbv beta iota.
  by destruct (negb (j =? "")%string && negb (owned_by (currentPlayer s) j)).
Qed.

Lemma movePiece_step_run s tr tc row col p :
  selectedPiece s = Some (row, col) ->
  cell (board s) row col = Some p ->
  cell (board s) tr tc = Some "" ->
  Z.abs (tc - col) = 1 -> Z.abs (tr - row) = 1 ->
  movePiece tr tc s =
  if is_king p || forwardMove (currentPlayer s) (tr - row)
  then (Returned true, moved s row col tr tc p)
  else (Returned false, set_selectedPiece None s).
Proof.
  intros Hsel Hp Ht Hdx Hdy.
  rewrite (movePiece_run _ _ _ _ _ _ _ Hsel Hp Ht). unfold validity.
  rewrite Hdx, Hdy.
  change (negb ("" =? "")%string) with false.
  change ((1 =? 1) && (1 =? 1)) with true. cbv beta iota.
  by destruct (is_king p || forwardMove (currentPlayer s) (tr - row)).
Qed.

Lemma reachable_play ms s : reachable s -> reachable (play ms s).
Proof.
  revert s. induction ms as [|[[[row col] tr] tc] ms IH]; intros s Hs; [done|].
  apply IH. by apply reach_movePiece, reach_selectPiece.
Qed.

Lemma small_cases (i : Z) :
  0 <= i < 8 ->
  i = 0 \/ i = 1 \/ i = 2 \/ i = 3 \/ i = 4 \/ i = 5 \/ i = 6 \/ i = 7.
Proof. lia. Qed.

Lemma initial_layout r c :
  0 <= r < 8 -> 0 <= c < 8 ->
  cell (board new_GameService) r c = Some (starting_layout r c).
Proof.
  intros Hr%small_cases Hc%small_cases.
  destruct_or!; subst; reflexivity.
Qed.

(** Outside the board the method has no guard: a target row the board does
    not have makes [isValidMove] throw, and the selection stays; a target
    column the row does not have reads as [undefined], which is not [''], so
    the move is refused like one onto an occupied cell. *)
Lemma target_row_outside_throws :
  movePiece 8 1 (after (selectPiece 5 0 new_GameService)) =
  (TypeError, after (selectPiece 5 0 new_GameService)).
Proof. reflexivity. Qed.

Lemma target_column_outside_refused :
  movePiece 4 (-1) (after (selectPiece 5 0 new_GameService)) =
  (Returned false, new_GameService).
Proof. reflexivity. Qed.

(** ** Properties of the public operations *)

(** C1. [initializeBoard], at construction or from any state of a game in
    progress, returns and leaves the state of a fresh service: twelve pieces
    per player, all men, black on the dark squares of rows 0-2 and red on
    the dark squares of rows 5-7, every other cell empty, red to move, the
    game not over and nothing selected. *)
Theorem initializeBoard_resets (s : GameService) :
  result (initializeBoard s) = Returned tt /\
  after (initializeBoard s) = new_GameService /\
  count_color (board (after (initializeBoard s))) "red" = 12%nat /\
  count_color (board (after (initializeBoard s))) "black" = 12%nat /\
  (forall r c, 0 <= r < 8 -> 0 <= c < 8 ->
     cell (board (after (initializeBoard s))) r c = Some (starting_layout r c)) /\
  (forall r c v, cell (board (after (initializeBoard s))) r c = Some v ->
     0 <= r < 8 /\ 0 <= c < 8 /\ is_king v = false) /\
  currentPlayer (after (initializeBoard s)) = "red" /\
  gameOver (after (initializeBoard s)) = false /\
  selectedPiece (after (initializeBoard s)) = None.
Proof.
  assert (after (initializeBoard s) = new_GameService) as -> by done.
  do 4 (split; [done|]). split; [apply initial_layout|]. split; [|done].
  intros r c v H.
  destruct (cell_bounds (board new_GameService) r c v) as [Hr Hc];
    [done|repeat constructor|done|].
  do 2 (split; [done|]).
  rewrite initial_layout in H by done. injection H as <-.
  unfold starting_layout. by repeat case_match.
Qed.

Lemma initializeBoard_resets_witness :
  let s := after (movePiece 4 1 (after (selectPiece 5 0 new_GameService))) in
  cell (board s) 4 1 = Some "red" /\
  cell (board (after (initializeBoard s))) 4 1 = Some "" /\
  cell (board (after (initializeBoard s))) 5 0 = Some "red" /\
  is_king "red" = false.
Proof.
  intros s.
  destruct (initializeBoard_resets s) as (_ & _ & _ & _ & Hlayout & Hmen & _).
  split; [reflexivity|]. split; [|split].
  - apply (Hlayout 4 1); lia.
  - apply (Hlayout 5 0); lia.
  - apply (Hmen 5 0 "red"). apply (Hlayout 5 0); lia.
Defined.

(** C2. Whenever [isValidMove] answers [false], [movePiece] returns [false],
    clears the selection and leaves the board, the current player and the
    game-over flag as they were; and with a piece selected and a target on
    the board, [isValidMove] does answer [false] for an occupied target, a
    non-diagonal step, a backward one-step by a man, and a jump over an empty
    cell or over a piece of the mover's own side. *)
Theorem movePiece_refused (s : GameService) (targetRow targetCol : Z) :
  (result (isValidMove targetRow targetCol s) = Returned false ->
   result (movePiece targetRow targetCol s) = Returned false /\
   selectedPiece (after (movePiece targetRow targetCol s)) = None /\
   board (after (movePiece targetRow targetCol s)) = board s /\
   currentPlayer (after (movePiece targetRow targetCol s)) = currentPlayer s /\
   gameOver (after (movePiece targetRow targetCol s)) = gameOver s) /\
  (forall row col p t,
     reachable s ->
     selectedPiece s = Some (row, col) ->
     cell (board s) row col = Some p ->
     cell (board s) targetRow targetCol = Some t ->
     refused p t (cell (board s) ((row + targetRow) / 2) ((col + targetCol) / 2))
             (targetCol - col) (targetRow - row) ->
     result (isValidMove targetRow targetCol s) = Returned false).
Proof.
  split.
  - intros Hv. unfold movePiece.
    destruct (isValidMove targetRow targetCol s) as [r s'] eqn:E.
    cbn in Hv. subst r.
    assert (s' = s) as ->.
    { destruct (selectedPiece s) as [[row col]|] eqn:Hsel;
        [|by rewrite isValidMove_unselected in E].
      destruct (cell (board s) row col) as [p|] eqn:Hp,
               (cell (board s) targetRow targetCol) as [t|] eqn:Ht.
      1: erewrite isValidMove_run in E by done; by injection E.
      all: destruct (isValidMove_outside s targetRow targetCol row col Hsel)
             as [E'|E']; [auto| |]; rewrite E' in E; by injection E. }
    by rewrite (bind_Returned _ _ _ _ _ E).
  - intros row col p t Hs Hsel Hp Ht Href.
    apply reachable_wf in Hs as Hwf.
    destruct (selected_owner s row col p Hwf Hsel Hp) as (_ & _ & Hown & Hfwd).
    rewrite (isValidMove_run _ _ _ _ _ _ _ Hsel Hp Ht). cbn. unfold validity.
    destruct (String.eqb_spec t "") as [->|Hocc]; [|done]. cbn [negb].
    destruct Href as [?|[Hnd|[(Hdx & Hdy & Hman & Hback)|(Hdx & Hdy & j & Hj & Hbad)]]].
    + done.
    + destruct (Z.eqb_spec (Z.abs (targetCol - col)) 1),
        (Z.eqb_spec (Z.abs (targetRow - row)) 1); cbn [andb]; try lia.
      all: destruct (Z.eqb_spec (Z.abs (targetCol - col)) 2),
             (Z.eqb_spec (Z.abs (targetRow - row)) 2); cbn [andb]; try lia.
      all: done.
    + rewrite Hdx, Hdy. cbn. by rewrite Hman, Hfwd, Hback.
    + rewrite Hdx, Hdy, Hj. cbn. rewrite Hown in Hbad.
      destruct Hbad as [-> | ->]; [done|].
      by rewrite andb_false_r.
Qed.

Lemma movePiece_refused_witness :
  let s := after (selectPiece 5 0 new_GameService) in
  reachable s /\ selectedPiece s = Some (5, 0) /\
  cell (board s) 5 0 = Some "red" /\ cell (board s) 3 0 = Some "" /\
  refused "red" "" (cell (board s) ((5 + 3) / 2) ((0 + 0) / 2)) (0 - 0) (3 - 5) /\
  result (movePiece 3 0 s) = Returned false /\
  selectedPiece (after (movePiece 3 0 s)) = None /\
  board (after (movePiece 3 0 s)) = board s.
Proof.
  intros s.
  assert (reachable s) as Hs by apply reach_selectPiece, reach_new.
  assert (refused "red" "" (cell (board s) ((5 + 3) / 2) ((0 + 0) / 2))
            (0 - 0) (3 - 5)) as Href by (right; left; cbn; lia).
  destruct (movePiece_refused s 3 0) as [Hfalse Hlisted].
  specialize (Hlisted 5 0 "red" "" Hs eq_refl eq_refl eq_refl Href).
  destruct (Hfalse Hlisted) as (Hres & Hsel & Hboard & _).
  split; [exact Hs|]. do 3 (split; [reflexivity|]). split; [exact Href|].
  split; [exact Hres|]. split; [exact Hsel|exact Hboard].
Defined.

(** C3. A selected piece stepping one square diagonally onto an empty cell:
    a man succeeds exactly when the step is forward for its owner (one row up
    for red, one row down for black) and is refused on every backward step;
    a king succeeds in either direction. *)
Theorem one_step_direction (s : GameService) (row col targetRow targetCol : Z)
    (p : string) :
  reachable s ->
  selectedPiece s = Some (row, col) ->
  cell (board s) row col = Some p ->
  cell (board s) targetRow targetCol = Some "" ->
  Z.abs (targetCol - col) = 1 -> Z.abs (targetRow - row) = 1 ->
  (is_king p = false ->
   (result (movePiece targetRow targetCol s) = Returned true <->
    (owned_by "red" p = true /\ targetRow = row - 1) \/
    (owned_by "black" p = true /\ targetRow = row + 1))) /\
  (is_king p = false ->
   (owned_by "red" p = true /\ targetRow = row + 1) \/
   (owned_by "black" p = true /\ targetRow = row - 1) ->
   result (movePiece targetRow targetCol s) = Returned false) /\
  (is_king p = true ->
   result (movePiece targetRow targetCol s) = Returned true).
Proof.
  intros Hwf%reachable_wf Hsel Hp Ht Hdx Hdy.
  destruct (selected_owner s row col p Hwf Hsel Hp) as (_ & Hpc & _ & Hfwd).
  assert (result (movePiece targetRow targetCol s) =
          Returned (is_king p || forward_for p (targetRow - row))) as ->.
  { rewrite (movePiece_step_run _ _ _ _ _ _ Hsel Hp Ht Hdx Hdy), Hfwd.
    by destruct (is_king p || forward_for p (targetRow - row)). }
  assert (forward_for p (targetRow - row) = true <->
          (owned_by "red" p = true /\ targetRow = row - 1) \/
          (owned_by "black" p = true /\ targetRow = row + 1)) as Hfor.
  { unfold forward_for.
    rewrite orb_true_iff, !andb_true_iff, !Z.eqb_eq.
    split; (intros [[? ?]|[? ?]]; [left|right]; (split; [done|lia])). }
  split; [|split].
  - intros ->. cbn. rewrite <- Hfor. split; [by intros [= ->]|by intros ->].
  - intros -> Hback. cbn. f_equal. apply not_true_is_false. rewrite Hfor.
    destruct (wf_player _ Hwf) as [E|E]; rewrite E in Hpc;
      destruct Hpc as [-> | ->]; cbn in *; intros [[? ?]|[? ?]];
      destruct Hback as [[? ?]|[? ?]]; try done; lia.
  - by intros ->.
Qed.

Lemma one_step_direction_witness :
  let s := after (selectPiece 5 0 new_GameService) in
  reachable s /\ selectedPiece s = Some (5, 0) /\
  cell (board s) 5 0 = Some "red" /\ cell (board s) 4 1 = Some "" /\
  Z.abs (1 - 0) = 1 /\ Z.abs (4 - 5) = 1 /\ is_king "red" = false /\
  result (movePiece 4 1 s) = Returned true.
Proof.
  intros s.
  assert (reachable s) as Hs by apply reach_selectPiece, reach_new.
  destruct (one_step_direction s 5 0 4 1 "red" Hs eq_refl eq_refl eq_refl
              eq_refl eq_refl) as (Hman & _ & _).
  split; [exact Hs|]. do 3 (split; [reflexivity|]). do 3 (split; [reflexivity|]).
  apply (Hman eq_refl). left. split; reflexivity.
Defined.

(** C4. A selected piece jumping two squares diagonally onto an empty cell
    succeeds exactly when the midpoint holds a piece of the opposing player,
    whatever the direction and whatever the rank of the mover; after a
    successful jump the midpoint and the source are empty and the target
    holds the moved piece (crowned if it landed on its crowning row). *)
Theorem jump_captures (s : GameService) (row col targetRow targetCol : Z) :
  reachable s ->
  selectedPiece s = Some (row, col) ->
  cell (board s) targetRow targetCol = Some "" ->
  Z.abs (targetCol - col) = 2 -> Z.abs (targetRow - row) = 2 ->
  exists p j,
    cell (board s) row col = Some p /\
    cell (board s) ((row + targetRow) / 2) ((col + targetCol) / 2) = Some j /\
    result (movePiece targetRow targetCol s) =
      Returned (owned_by (opponent (currentPlayer s)) j) /\
    (owned_by (opponent (currentPlayer s)) j = true ->
     let b' := board (after (movePiece targetRow targetCol s)) in
     cell b' ((row + targetRow) / 2) ((col + targetCol) / 2) = Some "" /\
     cell b' row col = Some "" /\
     cell b' targetRow targetCol =
       Some (if crowning (currentPlayer s) targetRow
             then String.append (currentPlayer s) "-king" else p)).
Proof.
  intros Hwf%reachable_wf Hsel Ht Hdx Hdy.
  destruct (wf_selection _ Hwf _ _ Hsel) as (p & Hp & _).
  destruct (cell_bounds _ _ _ _ (wf_rows _ Hwf) (wf_cols _ Hwf) Hp) as [Hr Hc].
  destruct (cell_bounds _ _ _ _ (wf_rows _ Hwf) (wf_cols _ Hwf) Ht) as [Hr' Hc'].
  destruct (cell_in_bounds (board s) ((row + targetRow) / 2)
              ((col + targetCol) / 2) (wf_rows _ Hwf) (wf_cols _ Hwf))
    as [j Hj]; [Z.div_mod_to_equations; lia..|].
  exists p, j. split; [exact Hp|]. split; [exact Hj|].
  rewrite (movePiece_jump_run _ _ _ _ _ _ _ Hsel Hp Ht Hdx Hdy Hj).
  rewrite (opposing_tag _ j (wf_player _ Hwf)
             (cell_tag _ _ _ _ (wf_tags _ Hwf) Hj)).
  destruct (owned_by (opponent (currentPlayer s)) j);
    unfold result, after; cbn [fst snd]; [|by split].
  split; [reflexivity|]. intros _. unfold moved. cbn [board].
  destruct (moved_cells (board s) (currentPlayer s) row col targetRow targetCol p
              Hp Ht) as (Htgt & Hsrc & Hmid); [lia|].
  split; [|by split]. apply Hmid; [exact Hdy|]. by rewrite Hj.
Qed.

(** A red man that has advanced to (3, 4) captures the black man behind it
    at (4, 3) by jumping backwards to (5, 2). *)
Lemma jump_captures_witness :
  let s1 := after (movePiece 4 3 (after (selectPiece 5 2 new_GameService))) in
  let s2 := after (movePiece 3 2 (after (selectPiece 2 1 s1))) in
  let s3 := after (movePiece 3 4 (after (selectPiece 4 3 s2))) in
  let s4 := after (movePiece 4 3 (after (selectPiece 3 2 s3))) in
  let s := after (selectPiece 3 4 s4) in
  reachable s /\ selectedPiece s = Some (3, 4) /\
  cell (board s) 5 2 = Some "" /\ Z.abs (2 - 4) = 2 /\ Z.abs (5 - 3) = 2 /\
  cell (board s) 3 4 = Some "red" /\ cell (board s) 4 3 = Some "black" /\
  result (movePiece 5 2 s) = Returned true /\
  cell (board (after (movePiece 5 2 s))) 4 3 = Some "" /\
  cell (board (after (movePiece 5 2 s))) 3 4 = Some "" /\
  cell (board (after (movePiece 5 2 s))) 5 2 = Some "red".
Proof.
  intros s1 s2 s3 s4 s.
  assert (reachable s) as Hs.
  { apply reach_selectPiece.
    do 4 (apply reach_movePiece, reach_selectPiece). apply reach_new. }
  assert (selectedPiece s = Some (3, 4)) as Hsel by (vm_compute; reflexivity).
  assert (cell (board s) 5 2 = Some "") as Ht by (vm_compute; reflexivity).
  assert (cell (board s) 3 4 = Some "red") as Hred by (vm_compute; reflexivity).
  assert (cell (board s) 4 3 = Some "black") as Hblack
    by (vm_compute; reflexivity).
  assert (owned_by (opponent (currentPlayer s)) "black" = true) as Hopp
    by (vm_compute; reflexivity).
  assert (crowning (currentPlayer s) 5 = false) as Hcrown
    by (vm_compute; reflexivity).
  destruct (jump_captures s 3 4 5 2 Hs Hsel Ht eq_refl eq_refl)
    as (p & j & Hp & Hj & Hres & Hcells).
  change ((3 + 5) / 2) with 4 in *. change ((4 + 2) / 2) with 3 in *.
  rewrite Hred in Hp. injection Hp as <-.
  rewrite Hblack in Hj. injection Hj as <-.
  rewrite Hopp in Hres. destruct (Hcells Hopp) as (Hmid & Hsrc & Htgt).
  rewrite Hcrown in Htgt.
  split; [exact Hs|]. split; [exact Hsel|]. split; [exact Ht|].
  do 2 (split; [reflexivity|]). split; [exact Hred|]. split; [exact Hblack|].
  split; [exact Hres|]. split; [exact Hmid|]. split; [exact Hsrc|exact Htgt].
Defined.

(** C5. A successful move that lands the current player's piece on its
    crowning row (row 0 for red, row 7 for black) leaves a king of that
    player on the target, which is the piece itself when it already was a
    king; any other successful move leaves the piece as it was. *)
Theorem movePiece_crowns (s : GameService) (row col targetRow targetCol : Z)
    (p : string) :
  reachable s ->
  selectedPiece s = Some (row, col) ->
  cell (board s) row col = Some p ->
  result (movePiece targetRow targetCol s) = Returned true ->
  let landed := cell (board (after (movePiece targetRow targetCol s)))
                     targetRow targetCol in
  ((currentPlayer s = "red" /\ targetRow = 0) \/
   (currentPlayer s = "black" /\ targetRow = 7) ->
   landed = Some (String.append (currentPlayer s) "-king") /\
   is_king (String.append (currentPlayer s) "-king") = true /\
   owner_tag (String.append (currentPlayer s) "-king") = owner_tag p /\
   (is_king p = true -> landed = Some p)) /\
  (~ ((currentPlayer s = "red" /\ targetRow = 0) \/
      (currentPlayer s = "black" /\ targetRow = 7)) ->
   landed = Some p).
Proof.
  intros Hwf%reachable_wf Hsel Hp Hres landed. subst landed.
  destruct (selected_owner s row col p Hwf Hsel Hp) as (_ & Hpc & Hown & _).
  destruct (movePiece_cases s targetRow targetCol)
    as [E|[E|(row' & col' & p' & Hsel' & Hp' & Ht & Hv & E)]];
    rewrite E in *; [done..|].
  rewrite Hsel in Hsel'. injection Hsel' as <- <-.
  rewrite Hp in Hp'. injection Hp' as <-.
  apply validity_true in Hv as [_ Hv].
  destruct (moved_cells (board s) (currentPlayer s) row col targetRow targetCol p
              Hp Ht) as (Htgt & _); [lia|].
  cbn. rewrite Htgt. split.
  - intros Hcrown. pose proof Hcrown as Hc%crowning_spec. rewrite Hc.
    split; [done|]. rewrite Hown.
    destruct (wf_player _ Hwf) as [E'|E']; rewrite E' in *;
      (repeat split; [done..|]); by destruct Hpc as [-> | ->].
  - intros Hno. destruct (crowning (currentPlayer s) targetRow) eqn:Hc; [|done].
    by apply crowning_spec in Hc.
Qed.

Lemma movePiece_crowns_witness :
  let s := after (selectPiece 5 0 new_GameService) in
  reachable s /\ selectedPiece s = Some (5, 0) /\
  cell (board s) 5 0 = Some "red" /\
  result (movePiece 4 1 s) = Returned true /\
  cell (board (after (movePiece 4 1 s))) 4 1 = Some "red".
Proof.
  intros s.
  assert (reachable s) as Hs by apply reach_selectPiece, reach_new.
  destruct (movePiece_crowns s 5 0 4 1 "red" Hs eq_refl eq_refl eq_refl) as [_ Hplain].
  split; [exact Hs|]. do 3 (split; [reflexivity|]).
  apply Hplain. intros [[_ H]|[H _]]; discriminate H.
Defined.

(** C6. A successful [movePiece] counts the pieces left on the board it has
    just written and raises [gameOver] exactly when red or black has none; in
    a reachable state the flag after the move is up if and only if a side has
    no piece.  No [selectPiece] or [movePiece] call lowers a raised flag;
    [initializeBoard] lowers it. *)
Theorem gameOver_one_way (s : GameService) :
  (forall targetRow targetCol,
     result (movePiece targetRow targetCol s) = Returned true ->
     gameOver (after (movePiece targetRow targetCol s)) =
       gameOver s || no_pieces (board (after (movePiece targetRow targetCol s)))) /\
  (forall targetRow targetCol,
     reachable s ->
     result (movePiece targetRow targetCol s) = Returned true ->
     (gameOver (after (movePiece targetRow targetCol s)) = true <->
      count_color (board (after (movePiece targetRow targetCol s))) "red" = 0%nat \/
      count_color (board (after (movePiece targetRow targetCol s))) "black" = 0%nat)) /\
  (forall row col,
     gameOver s = true -> gameOver (after (selectPiece row col s)) = true) /\
  (forall targetRow targetCol,
     gameOver s = true ->
     gameOver (after (movePiece targetRow targetCol s)) = true) /\
  gameOver (after (initializeBoard s)) = false.
Proof.
  split; [|split; [|split; [|split; [|done]]]].
  - intros tr tc Hres.
    destruct (movePiece_cases s tr tc)
      as [E|[E|(row & col & p & _ & _ & _ & _ & E)]];
      rewrite E in *; [done..|]. reflexivity.
  - intros tr tc Hs Hres.
    rewrite (reachable_gameOver _ (reach_movePiece _ tr tc Hs)).
    unfold no_pieces. by rewrite orb_true_iff, !Nat.eqb_eq.
  - intros row col Hover.
    destruct (selectPiece_cases s row col) as [->|[->|(v & _ & _ & ->)]]; done.
  - intros tr tc Hover.
    destruct (movePiece_cases s tr tc)
      as [->|[->|(row & col & p & _ & _ & _ & _ & ->)]]; [done..|].
    cbn. by rewrite Hover.
Qed.

(** The last capture of a complete game: red takes black's last piece. *)
Lemma gameOver_one_way_witness :
  let s := after (selectPiece 5 4 (play endgame new_GameService)) in
  let s' := after (movePiece 3 2 s) in
  reachable s /\ gameOver s = false /\
  count_color (board s) "black" = 1%nat /\
  result (movePiece 3 2 s) = Returned true /\
  count_color (board s') "black" = 0%nat /\
  gameOver s' = true /\
  gameOver (after (selectPiece 6 1 s')) = true /\
  gameOver (after (movePiece 5 2 (after (selectPiece 6 1 s')))) = true.
Proof.
  intros s s'.
  assert (reachable s) as Hs
    by apply reach_selectPiece, reachable_play, reach_new.
  assert (result (movePiece 3 2 s) = Returned true) as Hres
    by (vm_compute; reflexivity).
  assert (count_color (board s') "black" = 0%nat) as Hblack
    by (vm_compute; reflexivity).
  destruct (gameOver_one_way s) as (_ & Hiff & _).
  pose proof (proj2 (Hiff 3 2 Hs Hres) (or_intror Hblack)) as Hover.
  destruct (gameOver_one_way s') as (_ & _ & Hsel & _).
  destruct (gameOver_one_way (after (selectPiece 6 1 s'))) as (_ & _ & _ & Hmove & _).
  split; [exact Hs|]. do 2 (split; [vm_compute; reflexivity|]).
  split; [exact Hres|]. split; [exact Hblack|]. split; [exact Hover|].
  split; [exact (Hsel 6 1 Hover)|exact (Hmove 5 2 (Hsel 6 1 Hover))].
Defined.

(** C7. For a cell [(row, col)] of the 8x8 board, [selectPiece] returns
    [true] and records [(row, col)] as the selection exactly when the cell
    holds a piece (man or king) of the current player; otherwise it returns
    [false] and leaves the selection as it was.  Either way the board, the
    current player and the game-over flag are untouched. *)
Theorem selectPiece_spec (s : GameService) (row col : Z) :
  reachable s -> 0 <= row < 8 -> 0 <= col < 8 ->
  exists v,
    cell (board s) row col = Some v /\
    (owned_by (currentPlayer s) v = true <->
     v = currentPlayer s \/ v = String.append (currentPlayer s) "-king") /\
    selectPiece row col s =
      (if owned_by (currentPlayer s) v
       then (Returned true, set_selectedPiece (Some (row, col)) s)
       else (Returned false, s)) /\
    board (after (selectPiece row col s)) = board s /\
    currentPlayer (after (selectPiece row col s)) = currentPlayer s /\
    gameOver (after (selectPiece row col s)) = gameOver s.
Proof.
  intros Hwf%reachable_wf Hr Hc.
  destruct (cell_in_bounds (board s) row col) as [v Hv];
    [apply Hwf..|done|done|].
  exists v. split; [done|]. split.
  - split; [apply owned_tag; [apply Hwf|by eapply cell_tag, Hv; apply Hwf]|].
    destruct (wf_player _ Hwf) as [E|E]; rewrite E; by intros [-> | ->].
  - rewrite (selectPiece_run _ _ _ _ Hv).
    by destruct (owned_by (currentPlayer s) v).
Qed.

Lemma selectPiece_spec_witness :
  reachable new_GameService /\ 0 <= 5 < 8 /\ 0 <= 0 < 8 /\
  selectPiece 5 0 new_GameService =
    (Returned true, set_selectedPiece (Some (5, 0)) new_GameService).
Proof.
  split; [apply reach_new|]. do 2 (split; [lia|]).
  destruct (selectPiece_spec new_GameService 5 0)
    as (v & Hv & _ & Hrun & _); [apply reach_new|lia|lia|].
  injection Hv as <-. exact Hrun.
Defined.

(** C8. [movePiece] on a fresh service, where nothing is selected, does not
    return [false]: destructuring the [null] selection throws a [TypeError],
    and the state stays as it was. *)
Theorem movePiece_unselected_throws :
  selectedPiece new_GameService = None /\
  movePiece 3 2 new_GameService = (TypeError, new_GameService) /\
  result (movePiece 3 2 new_GameService) = TypeError.
Proof. repeat split. Qed.

(** C9, as stated, fails: on a fresh board red is to move, so selecting the
    black man at (2, 1) is refused and the move that follows throws. *)
Lemma scenario1_refuted :
  ~ (result (selectPiece 2 1 new_GameService) = Returned true /\
     let s1 := after (selectPiece 2 1 new_GameService) in
     result (movePiece 3 2 s1) = Returned true /\
     cell (board (after (movePiece 3 2 s1))) 2 1 = Some "" /\
     cell (board (after (movePiece 3 2 s1))) 3 2 = Some "black" /\
     currentPlayer (after (movePiece 3 2 s1)) <> currentPlayer s1).
Proof. intros [H _]. discriminate H. Qed.

(** C9, amended.  On a fresh board [selectPiece 2 1] returns [false] and
    selects nothing, because red moves first.  Once red has opened with
    (5, 0) to (4, 1), selecting the black man at (2, 1) succeeds and the move
    to (3, 2) succeeds: (2, 1) is empty, (3, 2) holds the black man, and the
    turn passes from black back to red. *)
Theorem scenario1_after_red_opens :
  selectPiece 2 1 new_GameService = (Returned false, new_GameService) /\
  selectedPiece new_GameService = None /\
  let s1 := after (selectPiece 5 0 new_GameService) in
  let s2 := after (movePiece 4 1 s1) in
  let s3 := after (selectPiece 2 1 s2) in
  let s4 := after (movePiece 3 2 s3) in
  result (selectPiece 5 0 new_GameService) = Returned true /\
  result (movePiece 4 1 s1) = Returned true /\
  currentPlayer s2 = "black" /\
  cell (board s2) 2 1 = Some "black" /\
  result (selectPiece 2 1 s2) = Returned true /\
  selectedPiece s3 = Some (2, 1) /\
  result (movePiece 3 2 s3) = Returned true /\
  cell (board s4) 2 1 = Some "" /\
  cell (board s4) 3 2 = Some "black" /\
  currentPlayer s3 = "black" /\
  currentPlayer s4 = "red".
Proof. repeat split. Qed.

(** C10. In every reachable state a selection points at a cell holding a
    piece of the current player, so the owner written on the selected piece
    is the current player, and the forward test and the ownership test of
    [isValidMove], which use [currentPlayer], give what they would give for
    the owner of the piece being moved. *)
Theorem selection_owned_by_current (s : GameService) (row col : Z) :
  reachable s -> selectedPiece s = Some (row, col) ->
  exists p,
    cell (board s) row col = Some p /\
    owned_by (currentPlayer s) p = true /\
    owner_tag p = currentPlayer s /\
    (forall dy, forwardMove (currentPlayer s) dy = forwardMove (owner_tag p) dy) /\
    (forall dy, forwardMove (currentPlayer s) dy = forward_for p dy) /\
    (forall j, owned_by (currentPlayer s) j = owned_by (owner_tag p) j).
Proof.
  intros Hwf%reachable_wf Hsel.
  destruct (wf_selection _ Hwf _ _ Hsel) as (p & Hp & _).
  destruct (selected_owner s row col p Hwf Hsel Hp) as (Ho & _ & Hown & Hfwd).
  exists p. do 3 (split; [done|]). by rewrite Hown.
Qed.

Lemma selection_owned_by_current_witness :
  let s := after (selectPiece 5 0 new_GameService) in
  reachable s /\ selectedPiece s = Some (5, 0) /\
  exists p, cell (board s) 5 0 = Some p /\ owner_tag p = currentPlayer s.
Proof.
  intros s.
  assert (reachable s) as Hs by apply reach_selectPiece, reach_new.
  split; [exact Hs|]. split; [reflexivity|].
  destruct (selection_owned_by_current s 5 0 Hs eq_refl)
    as (p & Hp & _ & Hown & _).
  exists p. split; [exact Hp|exact Hown].
Defined.

(** ** Further properties of the service *)

Lemma validity_not_OutOfModel b cur row col tr tc p t :
  validity b cur row col tr tc p t <> OutOfModel.
Proof. unfold validity. repeat case_match; discriminate. Qed.

(** X1. [movePiece] returns [true] exactly when a cell is selected, the
    target is an empty cell of the board, and the move is either one
    diagonal step by a king or in the forward direction of the current
    player, or two diagonal steps over a non-empty cell that does not start
    with the current player. *)
Theorem movePiece_accepts_iff (s : GameService) (targetRow targetCol : Z) :
  result (movePiece targetRow targetCol s) = Returned true <->
  exists row col p,
    selectedPiece s = Some (row, col) /\
    cell (board s) row col = Some p /\
    cell (board s) targetRow targetCol = Some "" /\
    ((Z.abs (targetCol - col) = 1 /\ Z.abs (targetRow - row) = 1 /\
      (is_king p = true \/
       forwardMove (currentPlayer s) (targetRow - row) = true)) \/
     (Z.abs (targetCol - col) = 2 /\ Z.abs (targetRow - row) = 2 /\
      exists j,
        cell (board s) ((row + targetRow) / 2) ((col + targetCol) / 2) = Some j /\
        j <> "" /\ owned_by (currentPlayer s) j = false)).
Proof.
  split.
  - intros Hres.
    destruct (movePiece_cases s targetRow targetCol)
      as [E|[E|(row & col & p & Hsel & Hp & Ht & Hv & _)]];
      [rewrite E in Hres; discriminate..|].
    exists row, col, p. do 3 (split; [done|]).
    apply validity_true in Hv as [_ [(Hdx & Hdy & Hok)|Hjump]]; [left|by right].
    do 2 (split; [done|]). by apply orb_true_iff.
  - intros (row & col & p & Hsel & Hp & Ht & Hmove).
    destruct Hmove as [(Hdx & Hdy & Hok)|(Hdx & Hdy & j & Hj & Hne & Hopp)].
    + rewrite (movePiece_step_run _ _ _ _ _ _ Hsel Hp Ht Hdx Hdy).
      apply orb_true_iff in Hok as ->. done.
    + rewrite (movePiece_jump_run _ _ _ _ _ _ _ Hsel Hp Ht Hdx Hdy Hj), Hopp.
      apply String.eqb_neq in Hne as ->. done.
Qed.

Lemma movePiece_accepts_iff_witness :
  let s := after (selectPiece 5 0 new_GameService) in
  result (movePiece 4 1 s) = Returned true /\
  exists row col p,
    selectedPiece s = Some (row, col) /\ cell (board s) row col = Some p /\
    cell (board s) 4 1 = Some "".
Proof.
  intros s.
  assert (result (movePiece 4 1 s) = Returned true) as Hres by reflexivity.
  split; [exact Hres|].
  destruct (proj1 (movePiece_accepts_iff s 4 1) Hres)
    as (row & col & p & Hsel & Hp & Ht & _).
  exists row, col, p. split; [exact Hsel|]. split; [exact Hp|exact Ht].
Defined.

(** X3. A successful [movePiece] hands the turn to the other player; a
    refused or throwing call leaves the turn where it was.  In a reachable
    state the other player really is another one, and two successful moves
    bring the turn back. *)
Theorem turn_alternates (s : GameService) (targetRow targetCol : Z) :
  (result (movePiece targetRow targetCol s) = Returned true ->
   currentPlayer (after (movePiece targetRow targetCol s)) =
     opponent (currentPlayer s)) /\
  (result (movePiece targetRow targetCol s) <> Returned true ->
   currentPlayer (after (movePiece targetRow targetCol s)) = currentPlayer s) /\
  (reachable s ->
   opponent (currentPlayer s) <> currentPlayer s /\
   opponent (opponent (currentPlayer s)) = currentPlayer s).
Proof.
  split; [|split].
  - intros Hres.
    destruct (movePiece_cases s targetRow targetCol)
      as [E|[E|(row & col & p & _ & _ & _ & _ & E)]];
      rewrite E in *; [discriminate..|done].
  - intros Hres.
    destruct (movePiece_cases s targetRow targetCol)
      as [E|[E|(row & col & p & _ & _ & _ & _ & E)]];
      rewrite E in *; [done..|]. by destruct Hres.
  - intros Hwf%reachable_wf.
    by destruct (wf_player _ Hwf) as [-> | ->].
Qed.

Lemma turn_alternates_witness :
  let s := after (selectPiece 5 0 new_GameService) in
  reachable s /\
  result (movePiece 4 1 s) = Returned true /\
  currentPlayer (after (movePiece 4 1 s)) = "black" /\
  result (movePiece 3 0 s) <> Returned true /\
  currentPlayer (after (movePiece 3 0 s)) = "red" /\
  opponent (opponent (currentPlayer s)) = currentPlayer s.
Proof.
  intros s.
  assert (reachable s) as Hs by apply reach_selectPiece, reach_new.
  assert (result (movePiece 3 0 s) <> Returned true) as Hno by discriminate.
  destruct (turn_alternates s 4 1) as (Hyes & _ & Hback).
  destruct (turn_alternates s 3 0) as (_ & Hsame & _).
  split; [exact Hs|]. split; [reflexivity|]. split; [exact (Hyes eq_refl)|].
  split; [exact Hno|]. split; [exact (Hsame Hno)|exact (proj2 (Hback Hs))].
Defined.

(** X4. Whenever [movePiece] returns, accepted or refused, the selection is
    gone, so a [movePiece] called next without a new selection throws and
    changes nothing. *)
Theorem move_consumes_selection (s : GameService)
    (targetRow targetCol : Z) (b : bool) :
  result (movePiece targetRow targetCol s) = Returned b ->
  selectedPiece (after (movePiece targetRow targetCol s)) = None /\
  forall targetRow' targetCol',
    movePiece targetRow' targetCol' (after (movePiece targetRow targetCol s)) =
    (TypeError, after (movePiece targetRow targetCol s)).
Proof.
  intros Hres.
  assert (selectedPiece (after (movePiece targetRow targetCol s)) = None)
    as Hnone.
  { destruct (movePiece_cases s targetRow targetCol)
      as [E|[E|(row & col & p & _ & _ & _ & _ & E)]];
      rewrite E in *; [discriminate|done..]. }
  split; [done|]. intros tr' tc'. by apply movePiece_unselected.
Qed.

Lemma move_consumes_selection_witness :
  let s := after (selectPiece 5 0 new_GameService) in
  result (movePiece 4 1 s) = Returned true /\
  selectedPiece (after (movePiece 4 1 s)) = None /\
  result (movePiece 3 2 (after (movePiece 4 1 s))) = TypeError.
Proof.
  intros s.
  destruct (move_consumes_selection s 4 1 true eq_refl) as [Hnone Hnext].
  split; [reflexivity|]. split; [exact Hnone|].
  exact (f_equal fst (Hnext 3 2)).
Defined.

(** X5. A successful move writes the source, the target and, on a jump, the
    midpoint, and no other cell. *)
Theorem move_frame (s : GameService) (row col targetRow targetCol r c : Z) :
  selectedPiece s = Some (row, col) ->
  result (movePiece targetRow targetCol s) = Returned true ->
  (r <> row \/ c <> col) ->
  (r <> targetRow \/ c <> targetCol) ->
  (Z.abs (targetRow - row) = 2 ->
   r <> (row + targetRow) / 2 \/ c <> (col + targetCol) / 2) ->
  cell (board (after (movePiece targetRow targetCol s))) r c =
  cell (board s) r c.
Proof.
  intros Hsel Hres Hsrc Htgt Hmid.
  destruct (movePiece_cases s targetRow targetCol)
    as [E|[E|(row' & col' & p & Hsel' & _ & _ & _ & E)]];
    rewrite E in *; [discriminate..|].
  rewrite Hsel in Hsel'. injection Hsel' as <- <-.
  cbn. unfold moved_board.
  assert (cell (put (put (board s) targetRow targetCol p) row col "") r c =
          cell (board s) r c) as H1
    by (rewrite !cell_put_other by lia; done).
  destruct (crowning (currentPlayer s) targetRow);
    rewrite ?cell_put_other by lia;
    (destruct (Z.eqb_spec (Z.abs (targetRow - row)) 2) as [Hdy|];
     [specialize (Hmid Hdy); rewrite cell_put_other by lia|]; exact H1).
Qed.

Lemma move_frame_witness :
  let s := after (selectPiece 5 0 new_GameService) in
  selectedPiece s = Some (5, 0) /\
  result (movePiece 4 1 s) = Returned true /\
  cell (board (after (movePiece 4 1 s))) 5 2 = cell (board s) 5 2.
Proof.
  intros s. do 2 (split; [reflexivity|]).
  apply (move_frame s 5 0 4 1 5 2 eq_refl eq_refl); lia.
Defined.

Lemma movePiece_target_outside s tr tc row col p :
  selectedPiece s = Some (row, col) ->
  cell (board s) row col = Some p ->
  cell (board s) tr tc = None ->
  movePiece tr tc s =
  match JS.index (board s) tr with
  | Some _ => (Returned false, set_selectedPiece None s)
  | None => (TypeError, s)
  end.
Proof.
  intros Hsel Hp Ht.
  assert (isValidMove tr tc s =
          match JS.index (board s) tr with
          | Some _ => (Returned false, s)
          | None => (TypeError, s)
          end) as Hv.
  { unfold isValidMove. rewrite bind_gets, Hsel. cbn [destructure].
    rewrite bind_ret.
    rewrite (bind_Returned _ _ _ _ _ (board_get_cell _ _ _ _ Hp)).
    unfold cell in Ht. destruct (JS.index (board s) tr) as [rw|] eqn:Hrw.
    - assert (board_get tr tc s = (Returned None, s)) as E
        by (unfold board_get; by rewrite Hrw, Ht).
      by rewrite (bind_Returned _ _ _ _ _ E).
    - assert (board_get tr tc s = (TypeError, s)) as E
        by (unfold board_get; by rewrite Hrw).
      by rewrite (bind_TypeError _ _ _ _ E). }
  unfold movePiece. destruct (JS.index (board s) tr).
  - by rewrite (bind_Returned _ _ _ _ _ Hv).
  - by rewrite (bind_TypeError _ _ _ _ Hv).
Qed.

Lemma validity_in_bounds s row col tr tc p t :
  wf s -> cell (board s) row col = Some p -> cell (board s) tr tc = Some t ->
  validity (board s) (currentPlayer s) row col tr tc p t <> TypeError.
Proof.
  intros Hwf Hp Ht. unfold validity.
  destruct (cell_bounds _ _ _ _ (wf_rows _ Hwf) (wf_cols _ Hwf) Hp) as [Hr Hc].
  destruct (cell_bounds _ _ _ _ (wf_rows _ Hwf) (wf_cols _ Hwf) Ht) as [Hr' Hc'].
  destruct (negb (t =? "")%string); [done|].
  destruct (_ && _); [done|].
  destruct (_ && _); [|done].
  destruct (cell_in_bounds (board s) ((row + tr) / 2) ((col + tc) / 2)
              (wf_rows _ Hwf) (wf_cols _ Hwf)) as [j ->];
    [Z.div_mod_to_equations; lia..|done].
Qed.

Lemma index_row_bounds s r :
  wf s -> (is_Some (JS.index (board s) r) <-> 0 <= r < 8).
Proof.
  intros Hwf. split.
  - intros [rw Hrw]. apply index_bounds in Hrw.
    rewrite (wf_rows _ Hwf) in Hrw. lia.
  - intros Hr. destruct (index_in_bounds (board s) r) as [rw Hrw]; [|by eexists].
    rewrite (wf_rows _ Hwf). lia.
Qed.

Lemma cell_None_bounds s r c :
  wf s -> (cell (board s) r c = None <-> ~ (0 <= r < 8 /\ 0 <= c < 8)).
Proof.
  intros Hwf. split.
  - intros Hnone [Hr Hc].
    destruct (cell_in_bounds (board s) r c (wf_rows _ Hwf) (wf_cols _ Hwf) Hr Hc)
      as [v Hv]. congruence.
  - intros Hout. destruct (cell (board s) r c) as [v|] eqn:Hv; [|done].
    destruct Hout. by eapply cell_bounds; [apply Hwf..|].
Qed.

(** X2. A call that throws leaves the service exactly as it was, and so does
    a [selectPiece] that returns [false]: no method mutates before it
    fails. *)
Theorem failure_changes_nothing (s : GameService) :
  (forall row col,
     result (selectPiece row col s) <> Returned true ->
     after (selectPiece row col s) = s) /\
  (forall targetRow targetCol,
     result (movePiece targetRow targetCol s) = TypeError ->
     after (movePiece targetRow targetCol s) = s) /\
  (forall targetRow targetCol,
     result (isValidMove targetRow targetCol s) <> OutOfModel /\
     after (isValidMove targetRow targetCol s) = s).
Proof.
  split; [|split].
  - intros row col Hres.
    destruct (selectPiece_cases s row col) as [E|[E|(v & _ & _ & E)]];
      rewrite E in *; [done..|]. by destruct Hres.
  - intros tr tc Hres.
    destruct (movePiece_cases s tr tc)
      as [E|[E|(row & col & p & _ & _ & _ & _ & E)]];
      rewrite E in *; [done|discriminate..].
  - intros tr tc.
    destruct (selectedPiece s) as [[row col]|] eqn:Hsel;
      [|by rewrite isValidMove_unselected].
    destruct (cell (board s) row col) as [p|] eqn:Hp,
             (cell (board s) tr tc) as [t|] eqn:Ht.
    1: { rewrite (isValidMove_run _ _ _ _ _ _ _ Hsel Hp Ht).
         split; [apply validity_not_OutOfModel|done]. }
    all: destruct (isValidMove_outside s tr tc row col Hsel) as [E|E];
      [auto| |]; by rewrite E.
Qed.

Lemma failure_changes_nothing_witness :
  result (selectPiece 2 1 new_GameService) <> Returned true /\
  after (selectPiece 2 1 new_GameService) = new_GameService /\
  result (movePiece 3 2 new_GameService) = TypeError /\
  after (movePiece 3 2 new_GameService) = new_GameService.
Proof.
  destruct (failure_changes_nothing new_GameService) as (Hsel & Hmove & _).
  assert (result (selectPiece 2 1 new_GameService) <> Returned true) as Hno
    by discriminate.
  split; [exact Hno|]. split; [exact (Hsel 2 1 Hno)|].
  split; [reflexivity|exact (Hmove 3 2 eq_refl)].
Defined.

(** X6. In a reachable state [selectPiece] throws exactly when the
    coordinates are off the 8x8 board, and [movePiece] throws exactly when
    nothing is selected or the target row is off the board; with a selection,
    a target column off the board in a row of the board is refused like an
    occupied cell. *)
Theorem throws_exactly_off_board (s : GameService) :
  reachable s ->
  (forall row col,
     result (selectPiece row col s) = TypeError <->
     ~ (0 <= row < 8 /\ 0 <= col < 8)) /\
  (forall targetRow targetCol,
     result (movePiece targetRow targetCol s) = TypeError <->
     selectedPiece s = None \/ ~ (0 <= targetRow < 8)) /\
  (forall targetRow targetCol,
     selectedPiece s <> None -> 0 <= targetRow < 8 ->
     ~ (0 <= targetCol < 8) ->
     movePiece targetRow targetCol s =
     (Returned false, set_selectedPiece None s)).
Proof.
  intros Hwf%reachable_wf.
  assert (forall tr tc row col,
            selectedPiece s = Some (row, col) -> 0 <= tr < 8 ->
            ~ (0 <= tc < 8) ->
            movePiece tr tc s = (Returned false, set_selectedPiece None s))
    as Hcol.
  { intros tr tc row col Hsel Hr Hc.
    destruct (wf_selection _ Hwf _ _ Hsel) as (p & Hp & _).
    assert (cell (board s) tr tc = None) as Ht
      by (apply (cell_None_bounds _ _ _ Hwf); tauto).
    rewrite (movePiece_target_outside _ _ _ _ _ _ Hsel Hp Ht).
    by destruct (proj2 (index_row_bounds s tr Hwf) Hr) as [rw ->]. }
  split; [|split].
  - intros row col. rewrite <- (cell_None_bounds _ _ _ Hwf). split.
    + intros Hres. destruct (cell (board s) row col) as [v|] eqn:Hv; [|done].
      rewrite (selectPiece_run _ _ _ _ Hv) in Hres.
      by destruct (owned_by (currentPlayer s) v).
    + intros Hv. by rewrite selectPiece_outside.
  - intros tr tc. split.
    + intros Hres.
      destruct (selectedPiece s) as [[row col]|] eqn:Hsel; [right|by left].
      intros Hr.
      destruct (wf_selection _ Hwf _ _ Hsel) as (p & Hp & _).
      destruct (cell (board s) tr tc) as [t|] eqn:Ht.
      * rewrite (movePiece_run _ _ _ _ _ _ _ Hsel Hp Ht) in Hres.
        pose proof (validity_in_bounds s row col tr tc p t Hwf Hp Ht) as Hv.
        by destruct (validity _ _ _ _ _ _ _ _) as [[]| |].
      * rewrite (movePiece_target_outside _ _ _ _ _ _ Hsel Hp Ht) in Hres.
        by destruct (proj2 (index_row_bounds s tr Hwf) Hr) as [rw Hrw];
          rewrite Hrw in Hres.
    + intros [Hsel|Hr]; [by rewrite movePiece_unselected|].
      destruct (selectedPiece s) as [[row col]|] eqn:Hsel;
        [|by rewrite movePiece_unselected].
      destruct (wf_selection _ Hwf _ _ Hsel) as (p & Hp & _).
      assert (cell (board s) tr tc = None) as Ht
        by (apply (cell_None_bounds _ _ _ Hwf); tauto).
      rewrite (movePiece_target_outside _ _ _ _ _ _ Hsel Hp Ht).
      destruct (JS.index (board s) tr) as [rw|] eqn:Hrw; [|done].
      destruct Hr. apply (index_row_bounds s tr Hwf). by eexists.
  - intros tr tc Hsel Hr Hc.
    destruct (selectedPiece s) as [[row col]|] eqn:Hsel'; [|done].
    by eapply Hcol.
Qed.

Lemma throws_exactly_off_board_witness :
  let s := after (selectPiece 5 0 new_GameService) in
  reachable s /\ selectedPiece s <> None /\ 0 <= 4 < 8 /\ ~ (0 <= -1 < 8) /\
  movePiece 4 (-1) s = (Returned false, set_selectedPiece None s) /\
  result (movePiece 8 1 s) = TypeError.
Proof.
  intros s.
  assert (reachable s) as Hs by apply reach_selectPiece, reach_new.
  assert (selectedPiece s <> None) as Hsel by discriminate.
  assert (~ (0 <= -1 < 8)) as Hc by lia.
  destruct (throws_exactly_off_board s Hs) as (_ & Hrow & Hcol).
  split; [exact Hs|]. split; [exact Hsel|]. split; [lia|]. split; [exact Hc|].
  split; [apply (Hcol 4 (-1) Hsel); [lia|exact Hc]|].
  apply Hrow. right. lia.
Defined.

(** ** Piece counts along a game *)

Lemma count_owned_pos b r c v color :
  color = "red" \/ color = "black" ->
  cell b r c = Some v -> owned_by color v = true ->
  (1 <= count_color b color)%nat.
Proof.
  intros Hcolor Hv Ho. pose proof (count_put b r c "" v color Hv) as H.
  rewrite Ho in H. cbn [Nat.b2n] in H.
  assert (owned_by color "" = false) as Hempty by (by destruct Hcolor as [-> | ->]).
  rewrite Hempty in H. cbn [Nat.b2n] in H. lia.
Qed.

Lemma count_moved_exact s row col tr tc p color :
  wf s ->
  cell (board s) row col = Some p ->
  owned_by (currentPlayer s) p = true ->
  cell (board s) tr tc = Some "" ->
  color = "red" \/ color = "black" ->
  (count_color (moved_board (board s) (currentPlayer s) row col tr tc p) color +
   (if (Z.abs (tr - row) =? 2)%Z
    then match cell (board s) ((row + tr) / 2)%Z ((col + tc) / 2)%Z with
         | Some j => Nat.b2n (owned_by color j)
         | None => 0
         end
    else 0) =
   count_color (board s) color)%nat.
Proof.
  intros Hs Hp Ho Ht Hcolor. unfold moved_board.
  pose proof (owned_tag _ _ (wf_player _ Hs)
                (cell_tag _ _ _ _ (wf_tags _ Hs) Hp) Ho) as Hpc.
  assert (owned_by color "" = false) as Hempty by (by destruct Hcolor as [-> | ->]).
  assert (row <> tr \/ col <> tc) as Hne.
  { destruct (decide (row = tr /\ col = tc)) as [[-> ->]|]; [|lia].
    rewrite Hp in Ht. injection Ht as ->.
    destruct (wf_player _ Hs) as [E|E]; rewrite E in Ho; done. }
  set (b1 := put (put (board s) tr tc p) row col "").
  assert (cell b1 tr tc = Some p) as Hb1t.
  { unfold b1. rewrite cell_put_other by lia. by eapply cell_put_same. }
  assert (count_color b1 color = count_color (board s) color) as Hc1.
  { unfold b1.
    pose proof (count_put (board s) tr tc p "" color Ht) as H1.
    assert (cell (put (board s) tr tc p) row col = Some p) as Hp'
      by (by rewrite cell_put_other by lia).
    pose proof (count_put _ row col "" p color Hp') as H2.
    rewrite Hempty in *. cbn [Nat.b2n] in *. lia. }
  set (b2 := if Z.abs (tr - row) =? 2 then _ else b1).
  assert (cell b2 tr tc = Some p /\
          (count_color b2 color +
           (if (Z.abs (tr - row) =? 2)%Z
            then match cell (board s) ((row + tr) / 2)%Z ((col + tc) / 2)%Z with
                 | Some j => Nat.b2n (owned_by color j)
                 | None => 0
                 end
            else 0) = count_color (board s) color)%nat)
    as [Hb2t Hc2].
  { unfold b2. destruct (Z.eqb_spec (Z.abs (tr - row)) 2) as [Hdy|];
      [|split; [done|lia]].
    assert ((row + tr) / 2 <> tr) as Hmt by (Z.div_mod_to_equations; lia).
    assert ((row + tr) / 2 <> row) as Hms by (Z.div_mod_to_equations; lia).
    split; [rewrite cell_put_other; [done|lia]|].
    assert (cell b1 ((row + tr) / 2) ((col + tc) / 2) =
            cell (board s) ((row + tr) / 2) ((col + tc) / 2)) as Hmid
      by (unfold b1; by rewrite !cell_put_other by lia).
    destruct (cell (board s) ((row + tr) / 2) ((col + tc) / 2)) as [j|] eqn:Hj.
    - pose proof (count_put b1 _ _ "" j color Hmid) as H3.
      rewrite Hempty in H3. cbn [Nat.b2n] in H3. lia.
    - rewrite put_outside by done. lia. }
  destruct (crowning (currentPlayer s) tr); [|done].
  pose proof (count_put b2 tr tc (String.append (currentPlayer s) "-king")
                p color Hb2t) as H3.
  assert (owned_by color p =
          owned_by color (String.append (currentPlayer s) "-king")) as Hsame.
  { destruct (wf_player _ Hs) as [E|E]; rewrite E in *;
      destruct Hpc as [-> | ->], Hcolor as [-> | ->]; done. }
  rewrite Hsame in H3. lia.
Qed.

(** X7. In a reachable state a successful move keeps the number of pieces of
    the mover; a one-step move keeps the number of pieces of the other
    player too, and a jump lowers it by exactly one. *)
Theorem pieces_conserved (s : GameService) (row col targetRow targetCol : Z) :
  reachable s ->
  selectedPiece s = Some (row, col) ->
  result (movePiece targetRow targetCol s) = Returned true ->
  let b' := board (after (movePiece targetRow targetCol s)) in
  count_color b' (currentPlayer s) = count_color (board s) (currentPlayer s) /\
  (Z.abs (targetRow - row) = 1 ->
   count_color b' (opponent (currentPlayer s)) =
   count_color (board s) (opponent (currentPlayer s))) /\
  (Z.abs (targetRow - row) = 2 ->
   S (count_color b' (opponent (currentPlayer s))) =
   count_color (board s) (opponent (currentPlayer s))).
Proof.
  intros Hwf%reachable_wf Hsel Hres.
  destruct (movePiece_cases s targetRow targetCol)
    as [E|[E|(row' & col' & p & Hsel' & Hp & Ht & Hv & E)]];
    rewrite E in *; [discriminate..|].
  rewrite Hsel in Hsel'. injection Hsel' as <- <-.
  destruct (selected_owner s row col p Hwf Hsel Hp) as (Ho & _).
  pose proof (count_moved_exact s row col targetRow targetCol p
                (currentPlayer s) Hwf Hp Ho Ht (wf_player _ Hwf)) as Hmine.
  pose proof (count_moved_exact s row col targetRow targetCol p
                (opponent (currentPlayer s)) Hwf Hp Ho Ht
                (opponent_player _ (wf_player _ Hwf))) as Htheirs.
  apply validity_true in Hv as [_ [(_ & Hdy & _)|(_ & Hdy & j & Hj & Hne & Hopp)]];
    rewrite Hdy in *; cbn [Z.eqb Pos.eqb] in *; unfold after, moved;
    cbn [snd board].
  - split; [lia|]. split; [intros _; lia|done].
  - rewrite Hj in *. rewrite Hopp in Hmine.
    pose proof (opposing_tag _ j (wf_player _ Hwf)
                  (cell_tag _ _ _ _ (wf_tags _ Hwf) Hj)) as Hj'.
    rewrite Hopp in Hj'. apply String.eqb_neq in Hne. rewrite Hne in Hj'.
    rewrite <- Hj' in Htheirs. cbn [negb andb Nat.b2n] in *.
    split; [lia|]. split; [done|intros _; lia].
Qed.

Lemma pieces_conserved_witness :
  let s1 := after (movePiece 4 3 (after (selectPiece 5 2 new_GameService))) in
  let s2 := after (movePiece 3 2 (after (selectPiece 2 1 s1))) in
  let s3 := after (movePiece 3 4 (after (selectPiece 4 3 s2))) in
  let s4 := after (movePiece 4 3 (after (selectPiece 3 2 s3))) in
  let s := after (selectPiece 3 4 s4) in
  reachable s /\ selectedPiece s = Some (3, 4) /\
  result (movePiece 5 2 s) = Returned true /\
  count_color (board s) "black" = 12%nat /\
  S (count_color (board (after (movePiece 5 2 s))) (opponent (currentPlayer s))) =
  count_color (board s) (opponent (currentPlayer s)).
Proof.
  intros s1 s2 s3 s4 s.
  assert (reachable s) as Hs.
  { apply reach_selectPiece.
    do 4 (apply reach_movePiece, reach_selectPiece). apply reach_new. }
  assert (selectedPiece s = Some (3, 4)) as Hsel by (vm_compute; reflexivity).
  assert (result (movePiece 5 2 s) = Returned true) as Hres
    by (vm_compute; reflexivity).
  destruct (pieces_conserved s 3 4 5 2 Hs Hsel Hres) as (_ & _ & Hjump).
  split; [exact Hs|]. split; [exact Hsel|]. split; [exact Hres|].
  split; [vm_compute; reflexivity|]. apply Hjump. reflexivity.
Defined.

(** X8. No reachable state has more than twelve pieces of either colour:
    pieces are only ever removed. *)
Theorem at_most_twelve (s : GameService) :
  reachable s ->
  (count_color (board s) "red" <= 12)%nat /\
  (count_color (board s) "black" <= 12)%nat.
Proof.
  induction 1 as [|s Hs IH|s row col Hs IH|s tr tc Hs IH].
  - split; vm_compute; lia.
  - split; vm_compute; lia.
  - destruct (selectPiece_cases s row col) as [->|[->|(v & _ & _ & ->)]]; done.
  - apply reachable_wf in Hs as Hwf.
    destruct (movePiece_cases s tr tc)
      as [->|[->|(row & col & p & Hsel & Hp & Ht & _ & ->)]]; [done..|].
    destruct (selected_owner s row col p Hwf Hsel Hp) as (Ho & _).
    pose proof (count_moved_le s row col tr tc p "red" Hwf Hp Ho Ht
                  (or_introl eq_refl)).
    pose proof (count_moved_le s row col tr tc p "black" Hwf Hp Ho Ht
                  (or_intror eq_refl)).
    unfold after, moved. cbn [snd board]. lia.
Qed.

Lemma at_most_twelve_witness :
  let s := after (movePiece 3 2 (after (selectPiece 5 4
                    (play endgame new_GameService)))) in
  reachable s /\ (count_color (board s) "red" <= 12)%nat /\
  count_color (board s) "black" = 0%nat.
Proof.
  intros s.
  assert (reachable s) as Hs
    by apply reach_movePiece, reach_selectPiece, reachable_play, reach_new.
  split; [exact Hs|]. split; [exact (proj1 (at_most_twelve s Hs))|].
  vm_compute; reflexivity.
Defined.

(** ** Invariants of a game *)

Lemma king_owned cur :
  cur = "red" \/ cur = "black" ->
  owned_by cur (String.append cur "-king") = true.
Proof. by intros [-> | ->]. Qed.

Lemma reachable_over s :
  reachable s -> gameOver s = true ->
  selectedPiece s = None /\ count_color (board s) (currentPlayer s) = 0%nat.
Proof.
  induction 1 as [|s Hs IH|s row col Hs IH|s tr tc Hs IH]; [done..| |].
  - apply reachable_wf in Hs as Hwf.
    destruct (selectPiece_cases s row col) as [->|[->|(v & Hv & Ho & ->)]];
      [done..|].
    intros Hover. destruct (IH Hover) as [_ Hzero].
    pose proof (count_owned_pos _ _ _ _ _ (wf_player _ Hwf) Hv Ho). cbn. lia.
  - apply reachable_wf in Hs as Hwf.
    destruct (movePiece_cases s tr tc)
      as [->|[->|(row & col & p & Hsel & Hp & Ht & Hv & ->)]]; [done| |].
    + intros Hover. by destruct (IH Hover).
    + unfold after, moved. cbn [snd gameOver selectedPiece board currentPlayer].
      intros Hover. split; [done|].
      destruct (gameOver s) eqn:Hold.
      { destruct (IH eq_refl) as [Hnone _]. congruence. }
      cbn [orb] in Hover.
      destruct (selected_owner s row col p Hwf Hsel Hp) as (Ho & _).
      apply validity_true in Hv as [_ Hv].
      destruct (moved_cells (board s) (currentPlayer s) row col tr tc p Hp Ht)
        as (Htgt & _); [lia|].
      assert (owned_by (currentPlayer s)
                (if crowning (currentPlayer s) tr
                 then String.append (currentPlayer s) "-king" else p) = true)
        as Hlanded
        by (destruct (crowning _ _); [by apply king_owned, Hwf|done]).
      pose proof (count_owned_pos _ _ _ _ _ (wf_player _ Hwf) Htgt Hlanded)
        as Hpos.
      unfold no_pieces in Hover.
      apply orb_true_iff in Hover as [H0%Nat.eqb_eq|H0%Nat.eqb_eq];
        destruct (wf_player _ Hwf) as [E|E]; rewrite E in *; cbn [opponent
          JS.strict_eq String.eqb Ascii.eqb Bool.eqb]; try done; lia.
Qed.

(** X9. Once the flag is up in a reachable state, the player to move has no
    piece and nothing is selected, so no [selectPiece] succeeds and every
    [movePiece] throws: the service stays as it is until [initializeBoard],
    although neither method looks at [gameOver]. *)
Theorem game_over_is_final (s : GameService) :
  reachable s -> gameOver s = true ->
  selectedPiece s = None /\
  count_color (board s) (currentPlayer s) = 0%nat /\
  (forall row col,
     result (selectPiece row col s) <> Returned true /\
     after (selectPiece row col s) = s) /\
  (forall targetRow targetCol,
     movePiece targetRow targetCol s = (TypeError, s)).
Proof.
  intros Hs Hover. destruct (reachable_over s Hs Hover) as [Hnone Hzero].
  apply reachable_wf in Hs as Hwf.
  do 2 (split; [done|]). split.
  - intros row col.
    destruct (selectPiece_cases s row col) as [->|[->|(v & Hv & Ho & _)]];
      [done..|].
    pose proof (count_owned_pos _ _ _ _ _ (wf_player _ Hwf) Hv Ho). lia.
  - intros tr tc. by apply movePiece_unselected.
Qed.

Lemma game_over_is_final_witness :
  let s := after (movePiece 3 2 (after (selectPiece 5 4
                    (play endgame new_GameService)))) in
  reachable s /\ gameOver s = true /\
  currentPlayer s = "black" /\
  count_color (board s) (currentPlayer s) = 0%nat /\
  result (selectPiece 6 1 s) <> Returned true /\
  movePiece 5 2 s = (TypeError, s).
Proof.
  intros s.
  assert (reachable s) as Hs
    by apply reach_movePiece, reach_selectPiece, reachable_play, reach_new.
  assert (gameOver s = true) as Hover by (vm_compute; reflexivity).
  destruct (game_over_is_final s Hs Hover) as (_ & Hzero & Hsel & Hmove).
  split; [exact Hs|]. split; [exact Hover|].
  split; [vm_compute; reflexivity|]. split; [exact Hzero|].
  split; [exact (proj1 (Hsel 6 1))|exact (Hmove 5 2)].
Defined.

Lemma cell_put_inv b r0 c0 v0 r c v :
  cell (put b r0 c0 v0) r c = Some v ->
  (r = r0 /\ c = c0 /\ v = v0) \/ cell b r c = Some v.
Proof.
  intros H. destruct (decide (r0 = r /\ c0 = c)) as [[<- <-]|Hne].
  - destruct (cell b r0 c0) as [old|] eqn:Hold.
    + rewrite (cell_put_same _ _ _ _ _ Hold) in H. injection H as <-. auto.
    + rewrite put_outside in H by done. congruence.
  - rewrite cell_put_other in H by lia. by right.
Qed.

Lemma moved_board_inv b cur row col tr tc p r c v :
  cell (moved_board b cur row col tr tc p) r c = Some v -> v <> "" ->
  (r = tr /\ c = tc) \/ cell b r c = Some v.
Proof.
  unfold moved_board. intros H Hv.
  assert (forall b', cell (put (put b' tr tc p) row col "") r c = Some v ->
                     (r = tr /\ c = tc) \/ cell b' r c = Some v) as H1.
  { intros b' [(_ & _ & ->)|[(-> & -> & _)|H']%cell_put_inv]%cell_put_inv;
      [done|by left|by right]. }
  assert (forall b', cell (if Z.abs (tr - row) =? 2
                           then put b' ((row + tr) / 2) ((col + tc) / 2) ""
                           else b') r c = Some v ->
                     cell b' r c = Some v) as H2.
  { intros b'. destruct (Z.abs (tr - row) =? 2); [|done].
    by intros [(_ & _ & ->)|H']%cell_put_inv. }
  destruct (crowning cur tr).
  - apply cell_put_inv in H as [(-> & -> & _)|H]; [by left|]. auto.
  - auto.
Qed.

Lemma diagonal_keeps_colour row col tr tc :
  (Z.abs (tc - col) = 1 /\ Z.abs (tr - row) = 1) \/
  (Z.abs (tc - col) = 2 /\ Z.abs (tr - row) = 2) ->
  dark tr tc = dark row col.
Proof.
  intros H. unfold dark.
  replace (tr + tc) with (row + col + ((tr - row) + (tc - col))) by lia.
  rewrite Z.odd_add.
  assert (Z.odd (tr - row + (tc - col)) = false) as ->; [|by rewrite xorb_false_r].
  assert (tr - row + (tc - col) = 0 \/ tr - row + (tc - col) = 2 \/
          tr - row + (tc - col) = -2 \/ tr - row + (tc - col) = 4 \/
          tr - row + (tc - col) = -4) as [->|[->|[->|[->| ->]]]] by lia; done.
Qed.

(** X10. In every reachable state the pieces stand on dark squares: a light
    square of the board is always empty. *)
Theorem pieces_on_dark_squares (s : GameService) (r c : Z) (v : string) :
  reachable s -> cell (board s) r c = Some v -> v <> "" -> dark r c = true.
Proof.
  intros Hs. revert r c v.
  induction Hs as [|s Hs IH|s row col Hs IH|s tr tc Hs IH]; intros r c v Hv Hne.
  - destruct (cell_bounds (board new_GameService) r c v) as [Hr Hc];
      [done|repeat constructor|done|].
    rewrite initial_layout in Hv by done. injection Hv as <-.
    unfold starting_layout in Hne. by destruct (dark r c).
  - destruct (cell_bounds (board new_GameService) r c v) as [Hr Hc];
      [done|repeat constructor|done|].
    change (after (initializeBoard s)) with new_GameService in Hv.
    rewrite initial_layout in Hv by done. injection Hv as <-.
    unfold starting_layout in Hne. by destruct (dark r c).
  - destruct (selectPiece_cases s row col) as [E|[E|(? & _ & _ & E)]];
      rewrite E in Hv; by eapply IH.
  - apply reachable_wf in Hs as Hwf.
    destruct (movePiece_cases s tr tc)
      as [E|[E|(row & col & p & Hsel & Hp & Ht & Hval & E)]];
      rewrite E in Hv; [by eapply IH..|].
    apply moved_board_inv in Hv as [[-> ->]|Hv]; [|by eapply IH|done].
    destruct (selected_owner s row col p Hwf Hsel Hp) as (Ho & _).
    assert (p <> "") as Hp0.
    { intros ->. by destruct (wf_player _ Hwf) as [E'|E']; rewrite E' in Ho. }
    rewrite (diagonal_keeps_colour row col tr tc); [by eapply IH|].
    apply validity_true in Hval as [_ [(? & ? & _)|(? & ? & _)]]; auto.
Qed.

Lemma pieces_on_dark_squares_witness :
  let s := after (movePiece 4 1 (after (selectPiece 5 0 new_GameService))) in
  reachable s /\ cell (board s) 4 1 = Some "red" /\ "red" <> "" /\
  dark 4 1 = true.
Proof.
  intros s.
  assert (reachable s) as Hs by apply reach_movePiece, reach_selectPiece, reach_new.
  assert ("red" <> "") as Hne by discriminate.
  split; [exact Hs|]. split; [reflexivity|]. split; [exact Hne|].
  exact (pieces_on_dark_squares s 4 1 "red" Hs eq_refl Hne).
Defined.

(** X11. In every reachable state the board is eight rows of eight cells,
    every cell holds one of the five tags, and the current player is red or
    black. *)
Theorem board_stays_well_formed (s : GameService) :
  reachable s ->
  (forall r c, is_Some (cell (board s) r c) <-> 0 <= r < 8 /\ 0 <= c < 8) /\
  (forall r c v, cell (board s) r c = Some v -> is_tag v) /\
  (currentPlayer s = "red" \/ currentPlayer s = "black").
Proof.
  intros Hwf%reachable_wf. split; [|split].
  - intros r c. split.
    + intros [v Hv]. by eapply cell_bounds; [apply Hwf..|].
    + intros [Hr Hc]. by apply cell_in_bounds; [apply Hwf..| |].
  - intros r c v. apply cell_tag, Hwf.
  - apply Hwf.
Qed.

Lemma board_stays_well_formed_witness :
  let s := after (movePiece 3 2 (after (selectPiece 5 4
                    (play endgame new_GameService)))) in
  reachable s /\ is_Some (cell (board s) 7 7) /\ ~ is_Some (cell (board s) 8 0).
Proof.
  intros s.
  assert (reachable s) as Hs
    by apply reach_movePiece, reach_selectPiece, reachable_play, reach_new.
  destruct (board_stays_well_formed s Hs) as (Hshape & _).
  split; [exact Hs|]. split.
  - apply Hshape. lia.
  - intros H%Hshape. lia.
Defined.

(** ** The component *)

Lemma onCellClick_over s row col :
  gameOver s = true -> onCellClick row col s = (Returned tt, s).
Proof. intros H. unfold onCellClick. by rewrite bind_gets, H. Qed.

Lemma onCellClick_move s row col sel :
  gameOver s = false -> selectedPiece s = Some sel ->
  onCellClick row col s =
  (match result (movePiece row col s) with
   | Returned _ => Returned tt
   | TypeError => TypeError
   | OutOfModel => OutOfModel
   end, after (movePiece row col s)).
Proof.
  intros Hover Hsel. unfold onCellClick.
  rewrite bind_gets, Hover, bind_gets, Hsel. unfold bind, result, after.
  by destruct (movePiece row col s) as [[?| |] ?].
Qed.

Lemma onCellClick_select s row col :
  gameOver s = false -> selectedPiece s = None ->
  onCellClick row col s =
  (match result (selectPiece row col s) with
   | Returned _ => Returned tt
   | TypeError => TypeError
   | OutOfModel => OutOfModel
   end, after (selectPiece row col s)).
Proof.
  intros Hover Hsel. unfold onCellClick.
  rewrite bind_gets, Hover, bind_gets, Hsel. unfold bind, result, after.
  by destruct (selectPiece row col s) as [[?| |] ?].
Qed.

Lemma handleClick_cell s row col v :
  cell (board s) row col = Some v ->
  handleClick row col s =
  if negb (String.eqb v "") && negb (owned_by (currentPlayer s) v)
  then (Returned tt, s) else onCellClick row col s.
Proof.
  intros Hv. unfold handleClick, owned_by.
  rewrite (bind_Returned _ _ _ _ _ (board_get_cell _ _ _ _ Hv)).
  cbn [truthy]. destruct (negb (v =? "")%string); cbn [andb defined].
  - unfold bind at 1 2 3. unfold ret at 1 2, gets.
    by destruct (negb (JS.startsWith v (currentPlayer s))).
  - by rewrite bind_ret.
Qed.

Lemma handleClick_outside s row col :
  cell (board s) row col = None ->
  handleClick row col s = (TypeError, s) \/
  handleClick row col s = onCellClick row col s.
Proof.
  intros Hv. unfold handleClick.
  destruct (board_get_outside _ _ _ Hv) as [E|E].
  - left. by rewrite (bind_TypeError _ _ _ _ E).
  - right. rewrite (bind_Returned _ _ _ _ _ E). cbn [truthy].
    by rewrite bind_ret.
Qed.

Lemma onCellClick_after s row col :
  after (onCellClick row col s) = s \/
  after (onCellClick row col s) = after (movePiece row col s) \/
  after (onCellClick row col s) = after (selectPiece row col s).
Proof.
  destruct (gameOver s) eqn:Hover; [left; by rewrite onCellClick_over|].
  destruct (selectedPiece s) as [sel|] eqn:Hsel.
  - right; left. by erewrite onCellClick_move.
  - right; right. by rewrite onCellClick_select.
Qed.

Lemma handleClick_after s row col :
  after (handleClick row col s) = s \/
  after (handleClick row col s) = after (onCellClick row col s).
Proof.
  destruct (cell (board s) row col) as [v|] eqn:Hv.
  - rewrite (handleClick_cell _ _ _ _ Hv). destruct (_ && _); auto.
  - destruct (handleClick_outside _ _ _ Hv) as [-> | ->]; auto.
Qed.

Lemma reachable_onCellClick s row col :
  reachable s -> reachable (after (onCellClick row col s)).
Proof.
  intros Hs. destruct (onCellClick_after s row col) as [->|[-> | ->]];
    [done|by apply reach_movePiece|by apply reach_selectPiece].
Qed.

Lemma reachable_handleClick s row col :
  reachable s -> reachable (after (handleClick row col s)).
Proof.
  intros Hs. destruct (handleClick_after s row col) as [-> | ->];
    [done|by apply reachable_onCellClick].
Qed.

(** X12. Every state the component can produce, by any clicks and resets, is
    a state reachable through the three public methods of the service, so
    all the invariants of reachable states hold under the component. *)
Theorem ui_reachable_is_reachable (s : GameService) :
  ui_reachable s -> reachable s.
Proof.
  induction 1 as [|s row col _ IH|s row col _ IH|s _ IH].
  - apply reach_new.
  - by apply reachable_handleClick.
  - by apply reachable_onCellClick.
  - by apply reach_initializeBoard.
Qed.

Lemma ui_reachable_is_reachable_witness :
  let s := after (handleClick 4 1 (after (handleClick 5 0 new_GameService))) in
  ui_reachable s /\ reachable s /\ cell (board s) 4 1 = Some "red".
Proof.
  intros s.
  assert (ui_reachable s) as Hs by apply ui_handleClick, ui_handleClick, ui_new.
  split; [exact Hs|]. split; [exact (ui_reachable_is_reachable s Hs)|].
  reflexivity.
Defined.

(** X13. In a reachable state a click on a cell of the 8x8 board never
    throws: [onCellClick] calls [movePiece] only with a selection present,
    so the unguarded dereference in [isValidMove] is not reached. *)
Theorem clicks_on_board_never_throw (s : GameService) (row col : Z) :
  reachable s -> 0 <= row < 8 -> 0 <= col < 8 ->
  result (onCellClick row col s) = Returned tt /\
  result (handleClick row col s) = Returned tt.
Proof.
  intros Hwf%reachable_wf Hr Hc.
  destruct (cell_in_bounds (board s) row col (wf_rows _ Hwf) (wf_cols _ Hwf)
              Hr Hc) as [v Hv].
  assert (result (onCellClick row col s) = Returned tt) as Hon.
  { destruct (gameOver s) eqn:Hover; [by rewrite onCellClick_over|].
    destruct (selectedPiece s) as [[r0 c0]|] eqn:Hsel.
    - erewrite onCellClick_move by done. cbn [result fst].
      destruct (wf_selection _ Hwf _ _ Hsel) as (p & Hp & _).
      rewrite (movePiece_run _ _ _ _ _ _ _ Hsel Hp Hv).
      pose proof (validity_in_bounds s r0 c0 row col p v Hwf Hp Hv) as H1.
      pose proof (validity_not_OutOfModel (board s) (currentPlayer s)
                    r0 c0 row col p v) as H2.
      by destruct (validity _ _ _ _ _ _ _ _) as [[]| |].
    - rewrite onCellClick_select by done. cbn [result fst].
      rewrite (selectPiece_run _ _ _ _ Hv).
      by destruct (owned_by (currentPlayer s) v). }
  split; [done|]. rewrite (handleClick_cell _ _ _ _ Hv).
  by destruct (_ && _).
Qed.

Lemma clicks_on_board_never_throw_witness :
  reachable new_GameService /\ 0 <= 3 < 8 /\ 0 <= 2 < 8 /\
  result (onCellClick 3 2 new_GameService) = Returned tt /\
  result (movePiece 3 2 new_GameService) = TypeError.
Proof.
  split; [apply reach_new|]. do 2 (split; [lia|]).
  split; [|reflexivity].
  apply (clicks_on_board_never_throw new_GameService 3 2 reach_new); lia.
Defined.

(** X14. Once [gameOver] is set, no click changes anything, whatever the
    state and the coordinates, and no sequence of clicks does. *)
Theorem game_over_freezes_clicks (s : GameService) :
  gameOver s = true ->
  (forall row col, onCellClick row col s = (Returned tt, s)) /\
  (forall row col, after (handleClick row col s) = s) /\
  (forall cs, clicks cs s = s).
Proof.
  intros Hover.
  assert (forall row col, after (handleClick row col s) = s) as Hhandle.
  { intros row col. destruct (handleClick_after s row col) as [->| ->]; [done|].
    by rewrite onCellClick_over. }
  split; [intros; by apply onCellClick_over|]. split; [done|].
  induction cs as [|[row col] cs IH]; [done|].
  cbn [clicks fold_left fst snd]. rewrite Hhandle. exact IH.
Qed.

Lemma game_over_freezes_clicks_witness :
  let s := after (movePiece 3 2 (after (selectPiece 5 4
                    (play endgame new_GameService)))) in
  gameOver s = true /\ clicks [(6, 1); (5, 2); (9, 9)] s = s /\
  gameOver (after (resetGame s)) = false.
Proof.
  intros s.
  assert (gameOver s = true) as Hover by (vm_compute; reflexivity).
  destruct (game_over_freezes_clicks s Hover) as (_ & _ & Hclicks).
  split; [exact Hover|]. split; [exact (Hclicks _)|reflexivity].
Defined.

(** X15. What a click does in a reachable state of a running game, on a cell
    of the board: on a piece of the other player, nothing, and a selection
    stays; with nothing selected, a click on an own piece selects it and a
    click on an empty cell does nothing; with a piece selected, a click on
    any own piece drops the selection instead of moving it to that piece, and
    a click on an empty cell is the move to it. *)
Theorem handleClick_on_cell (s : GameService) (row col : Z) (v : string) :
  reachable s -> gameOver s = false -> cell (board s) row col = Some v ->
  (v <> "" -> owned_by (currentPlayer s) v = false ->
   handleClick row col s = (Returned tt, s)) /\
  (selectedPiece s = None -> owned_by (currentPlayer s) v = true ->
   handleClick row col s =
   (Returned tt, set_selectedPiece (Some (row, col)) s)) /\
  (selectedPiece s = None -> v = "" ->
   handleClick row col s = (Returned tt, s)) /\
  (selectedPiece s <> None -> owned_by (currentPlayer s) v = true ->
   handleClick row col s = (Returned tt, set_selectedPiece None s)) /\
  (selectedPiece s <> None -> v = "" ->
   after (handleClick row col s) = after (movePiece row col s)).
Proof.
  intros Hwf%reachable_wf Hover Hv.
  assert (owned_by (currentPlayer s) "" = false) as Hempty
    by (by destruct (wf_player _ Hwf) as [-> | ->]).
  rewrite (handleClick_cell _ _ _ _ Hv).
  split; [|split; [|split; [|split]]].
  - intros Hne%String.eqb_neq Ho. by rewrite Hne, Ho.
  - intros Hsel Ho. rewrite Ho, andb_false_r.
    rewrite (onCellClick_select _ _ _ Hover Hsel).
    by rewrite (selectPiece_run _ _ _ _ Hv), Ho.
  - intros Hsel ->. cbn [String.eqb negb andb].
    rewrite (onCellClick_select _ _ _ Hover Hsel).
    by rewrite (selectPiece_run _ _ _ _ Hv), Hempty.
  - intros Hsel Ho. rewrite Ho, andb_false_r.
    destruct (selectedPiece s) as [[r0 c0]|] eqn:Hsel'; [|done].
    rewrite (onCellClick_move _ _ _ _ Hover Hsel').
    destruct (wf_selection _ Hwf _ _ Hsel') as (p & Hp & _).
    rewrite (movePiece_run _ _ _ _ _ _ _ Hsel' Hp Hv). unfold validity.
    assert (negb (v =? "")%string = true) as ->; [|done].
    apply negb_true_iff, String.eqb_neq. intros ->. congruence.
  - intros Hsel ->. cbn [String.eqb negb andb].
    destruct (selectedPiece s) as [sel|] eqn:Hsel'; [|done].
    by rewrite (onCellClick_move _ _ _ _ Hover Hsel').
Qed.

Lemma handleClick_on_cell_witness :
  let s := after (handleClick 5 0 new_GameService) in
  reachable s /\ gameOver s = false /\ cell (board s) 5 2 = Some "red" /\
  selectedPiece s = Some (5, 0) /\
  handleClick 5 2 s = (Returned tt, set_selectedPiece None s) /\
  handleClick 2 1 s = (Returned tt, s).
Proof.
  intros s.
  assert (reachable s) as Hs by apply reachable_handleClick, reach_new.
  assert (selectedPiece s <> None) as Hsel by discriminate.
  assert ("black" <> "") as Hne by discriminate.
  destruct (handleClick_on_cell s 5 2 "red" Hs eq_refl eq_refl)
    as (_ & _ & _ & Hown & _).
  destruct (handleClick_on_cell s 2 1 "black" Hs eq_refl eq_refl)
    as (Hother & _).
  split; [exact Hs|]. do 3 (split; [reflexivity|]).
  split; [exact (Hown Hsel eq_refl)|exact (Hother Hne eq_refl)].
Defined.

(** X16. [isSelected] changes nothing and answers [true] for the selected
    cell and for no other, hence for none after [movePiece] has returned; in
    a reachable state the cell it marks holds a piece of the current
    player. *)
Theorem isSelected_marks_selection (s : GameService) (rowIndex colIndex : Z) :
  after (isSelected rowIndex colIndex s) = s /\
  (result (isSelected rowIndex colIndex s) = Returned true <->
   selectedPiece s = Some (rowIndex, colIndex)) /\
  (result (isSelected rowIndex colIndex s) <> Returned true ->
   result (isSelected rowIndex colIndex s) = Returned false) /\
  (forall targetRow targetCol b,
     result (movePiece targetRow targetCol s) = Returned b ->
     result (isSelected rowIndex colIndex
               (after (movePiece targetRow targetCol s))) = Returned false) /\
  (reachable s ->
   result (isSelected rowIndex colIndex s) = Returned true ->
   exists p, cell (board s) rowIndex colIndex = Some p /\
             owned_by (currentPlayer s) p = true).
Proof.
  assert (forall s', result (isSelected rowIndex colIndex s') = Returned true <->
                     selectedPiece s' = Some (rowIndex, colIndex)) as Hiff.
  { intros s'. unfold isSelected. rewrite bind_gets. unfold ret, result.
    cbn [fst]. destruct (selectedPiece s') as [[r c]|]; [|done].
    split.
    - intros [= [->%Z.eqb_eq ->%Z.eqb_eq]%andb_true_iff]. done.
    - intros [= -> ->]. by rewrite !Z.eqb_refl. }
  split; [done|]. split; [apply Hiff|]. split; [|split].
  - unfold isSelected. rewrite bind_gets. unfold ret, result. cbn [fst].
    by destruct (_ && _).
  - intros tr tc b Hres.
    destruct (movePiece_cases s tr tc)
      as [E|[E|(row & col & p & _ & _ & _ & _ & E)]];
      rewrite E in *; [discriminate|done..].
  - intros Hwf%reachable_wf Hsel%Hiff. by apply (wf_selection _ Hwf).
Qed.

Lemma isSelected_marks_selection_witness :
  let s := after (selectPiece 5 0 new_GameService) in
  reachable s /\
  result (isSelected 5 0 s) = Returned true /\
  result (isSelected 5 2 s) = Returned false /\
  result (movePiece 4 1 s) = Returned true /\
  result (isSelected 4 1 (after (movePiece 4 1 s))) = Returned false.
Proof.
  intros s.
  assert (reachable s) as Hs by apply reach_selectPiece, reach_new.
  destruct (isSelected_marks_selection s 5 0) as (_ & Hiff & _).
  destruct (isSelected_marks_selection s 5 2) as (_ & _ & Hno & _).
  destruct (isSelected_marks_selection s 4 1) as (_ & _ & _ & Hmoved & _).
  split; [exact Hs|]. split; [exact (proj2 Hiff eq_refl)|].
  split; [apply Hno; discriminate|]. split; [reflexivity|].
  exact (Hmoved 4 1 true eq_refl).
Defined.
